(** * FrameBuffer: off-screen render target with update scheduling

    A shallow embedding of [src/framework/graphics/framebuffer.cpp] and
    the properties of its binding protocol, its resize logic and its
    update-scheduling table.

    Conventions of the embedding:
    - unsigned quantities ([uint] handles, [uint16_t] durations, reference
      counts, the pending-request counter) are [N]; signed [int]s (sizes,
      clock ticks, the numeric constants) are [Z];
    - a smart pointer ([TexturePtr], [ScheduledEventPtr]) is an [option];
      dereferencing [None] is the fault [NullDereference];
    - [assert] is modelled as in a debug build: a false condition ends the
      run with [AssertionFailure]; [g_logger.fatal] ends it with
      [FatalError];
    - calls into the collaborators (GL, painter) are appended to a trace
      kept in the world state. *)

From Stdlib Require Import ZArith NArith Bool List Lia.
From stdpp Require Import gmap functions.
Import ListNotations.

Local Open Scope Z_scope.

(** ** Compile-time configuration

    [client/features.h] and [framebuffer.h] are not part of the sources at
    hand, so the constants the code reads from them, and the widths of the
    two counters declared there, are parameters of the development. *)
Record Features := {
  SCHEDULE_PAINTING : Z;
  FORCE_ANIMATED_RENDERING : Z;
  FLUSH_CONTROL_FOR_RENDERING : Z;
  MIN_TIME_UPDATE : Z;
  MAX_TIME_UPDATE : Z;
  FLUSH_AMOUNT : Z;
  FORCE_UPDATE : Z;
  (** width in bits of [m_requestAmount] *)
  request_bits : N;
  (** width in bits of the reference count of a schedule entry *)
  schedule_bits : N
}.

(** ** Geometry *)

Record Size := mkSize { wd : Z; ht : Z }.

Record Rect := mkRect { rx : Z; ry : Z; rsize : Size }.

Definition Size_eqb (a b : Size) : bool :=
  (wd a =? wd b) && (ht a =? ht b).

(** ** Texture surface *)

Record Texture := mkTexture {
  tex_id : N;
  tex_size : Size;
  tex_smooth : bool;
  tex_upsideDown : bool;
  (** screen region last captured into the texture, if any *)
  tex_screen : option Rect
}.

(** Modelled from the spec: the Texture class is absent; a texture
    constructed with a size reports that size, and the setters and the
    screen capture change only the attribute they name. *)
Definition Texture_new (id : N) (size : Size) : Texture :=
  mkTexture id size false false None.

(** Modelled from the spec: Texture::setSmooth, absent from the sources. *)
Definition setSmooth (b : bool) (t : Texture) : Texture :=
  mkTexture (tex_id t) (tex_size t) b (tex_upsideDown t) (tex_screen t).

(** Modelled from the spec: Texture::setUpsideDown, absent from the sources. *)
Definition setUpsideDown (b : bool) (t : Texture) : Texture :=
  mkTexture (tex_id t) (tex_size t) (tex_smooth t) b (tex_screen t).

(** Modelled from the spec: Texture::copyFromScreen, absent from the sources. *)
Definition copyFromScreen (r : Rect) (t : Texture) : Texture :=
  mkTexture (tex_id t) (tex_size t) (tex_smooth t) (tex_upsideDown t) (Some r).

(** ** Periodic dispatcher *)

Record ScheduledEvent := mkEvent { ev_delay : N; ev_cancelled : bool }.

Definition ev_cancel (e : ScheduledEvent) : ScheduledEvent :=
  mkEvent (ev_delay e) true.

(** ** Collaborator calls recorded in the trace *)

Inductive Call :=
| glGenFramebuffers (fbo : N)
| glBindFramebuffer (fbo : N)
| glFramebufferTexture2D (tex : N)
| glDisable_BLEND
| glEnable_BLEND
| saveAndResetState
| restoreSavedState
| setResolution (s : Size)
| resetColor
| drawTexturedRect (dest : Rect) (tex : option Texture) (src : Rect)
| tex_copyFromScreen (tex : N) (r : Rect).

(** ** Process-wide state

    [boundFbo] is the static member [FrameBuffer::boundFbo]; the other
    fields stand for the collaborators: the clock read by the timer, the
    window, the GL name allocators and the driver's answers, the
    dispatcher's events (a handle is a position in [events]) and the
    trace of calls, most recent first. *)
Record World := mkWorld {
  boundFbo : N;
  clock : Z;
  window_size : Size;
  canUseFBO : bool;
  next_fbo : N;
  next_texture : N;
  fbo_complete : bool;
  events : list ScheduledEvent;
  trace : list Call
}.

Definition set_boundFbo (v : N) (w : World) : World :=
  mkWorld v (clock w) (window_size w) (canUseFBO w) (next_fbo w)
          (next_texture w) (fbo_complete w) (events w) (trace w).

Definition set_next_fbo (v : N) (w : World) : World :=
  mkWorld (boundFbo w) (clock w) (window_size w) (canUseFBO w) v
          (next_texture w) (fbo_complete w) (events w) (trace w).

Definition set_next_texture (v : N) (w : World) : World :=
  mkWorld (boundFbo w) (clock w) (window_size w) (canUseFBO w) (next_fbo w)
          v (fbo_complete w) (events w) (trace w).

Definition set_events (v : list ScheduledEvent) (w : World) : World :=
  mkWorld (boundFbo w) (clock w) (window_size w) (canUseFBO w) (next_fbo w)
          (next_texture w) (fbo_complete w) v (trace w).

Definition log (c : Call) (w : World) : World :=
  mkWorld (boundFbo w) (clock w) (window_size w) (canUseFBO w) (next_fbo w)
          (next_texture w) (fbo_complete w) (events w) (c :: trace w).

(** [g_dispatcher.cycleEvent(callback, delay)]: registers a repeating
    event and returns its handle. *)
Definition cycleEvent (delay : N) (w : World) : nat * World :=
  (length (events w), set_events (events w ++ [mkEvent delay false]) w).

(** [ScheduledEvent::cancel] through a handle. *)
Definition cancel (h : nat) (w : World) : World :=
  set_events (alter ev_cancel h (events w)) w.

(** ** The FrameBuffer instance *)

Record FrameBuffer := mkFrameBuffer {
  m_texture : option Texture;
  m_screenBackup : option Texture;
  m_fbo : N;
  m_prevBoundFbo : N;
  m_backuping : bool;
  m_smooth : bool;
  m_drawable : bool;
  m_forceUpdate : bool;
  m_schedulePaintingEnabled : bool;
  m_requestAmount : N;
  (** clock value at the last [m_lastRenderedTime.restart()] *)
  m_lastRenderedTime : Z;
  (** duration |-> (reference count, event handle) *)
  m_schedules : gmap N (N * option nat)
}.

Definition set_texture (v : option Texture) (fb : FrameBuffer) : FrameBuffer :=
  mkFrameBuffer v (m_screenBackup fb) (m_fbo fb) (m_prevBoundFbo fb)
    (m_backuping fb) (m_smooth fb) (m_drawable fb) (m_forceUpdate fb)
    (m_schedulePaintingEnabled fb) (m_requestAmount fb)
    (m_lastRenderedTime fb) (m_schedules fb).

Definition set_screenBackup (v : option Texture) (fb : FrameBuffer) : FrameBuffer :=
  mkFrameBuffer (m_texture fb) v (m_fbo fb) (m_prevBoundFbo fb)
    (m_backuping fb) (m_smooth fb) (m_drawable fb) (m_forceUpdate fb)
    (m_schedulePaintingEnabled fb) (m_requestAmount fb)
    (m_lastRenderedTime fb) (m_schedules fb).

Definition set_fbo (v : N) (fb : FrameBuffer) : FrameBuffer :=
  mkFrameBuffer (m_texture fb) (m_screenBackup fb) v (m_prevBoundFbo fb)
    (m_backuping fb) (m_smooth fb) (m_drawable fb) (m_forceUpdate fb)
    (m_schedulePaintingEnabled fb) (m_requestAmount fb)
    (m_lastRenderedTime fb) (m_schedules fb).

Definition set_prevBoundFbo (v : N) (fb : FrameBuffer) : FrameBuffer :=
  mkFrameBuffer (m_texture fb) (m_screenBackup fb) (m_fbo fb) v
    (m_backuping fb) (m_smooth fb) (m_drawable fb) (m_forceUpdate fb)
    (m_schedulePaintingEnabled fb) (m_requestAmount fb)
    (m_lastRenderedTime fb) (m_schedules fb).

Definition set_forceUpdate (v : bool) (fb : FrameBuffer) : FrameBuffer :=
  mkFrameBuffer (m_texture fb) (m_screenBackup fb) (m_fbo fb) (m_prevBoundFbo fb)
    (m_backuping fb) (m_smooth fb) (m_drawable fb) v
    (m_schedulePaintingEnabled fb) (m_requestAmount fb)
    (m_lastRenderedTime fb) (m_schedules fb).

Definition set_requestAmount (v : N) (fb : FrameBuffer) : FrameBuffer :=
  mkFrameBuffer (m_texture fb) (m_screenBackup fb) (m_fbo fb) (m_prevBoundFbo fb)
    (m_backuping fb) (m_smooth fb) (m_drawable fb) (m_forceUpdate fb)
    (m_schedulePaintingEnabled fb) v
    (m_lastRenderedTime fb) (m_schedules fb).

Definition set_lastRenderedTime (v : Z) (fb : FrameBuffer) : FrameBuffer :=
  mkFrameBuffer (m_texture fb) (m_screenBackup fb) (m_fbo fb) (m_prevBoundFbo fb)
    (m_backuping fb) (m_smooth fb) (m_drawable fb) (m_forceUpdate fb)
    (m_schedulePaintingEnabled fb) (m_requestAmount fb)
    v (m_schedules fb).

Definition set_schedules (v : gmap N (N * option nat)) (fb : FrameBuffer) : FrameBuffer :=
  mkFrameBuffer (m_texture fb) (m_screenBackup fb) (m_fbo fb) (m_prevBoundFbo fb)
    (m_backuping fb) (m_smooth fb) (m_drawable fb) (m_forceUpdate fb)
    (m_schedulePaintingEnabled fb) (m_requestAmount fb)
    (m_lastRenderedTime fb) v.

(** ** Runs that may fault *)

Inductive Fault := AssertionFailure | FatalError | NullDereference.

Inductive Outcome (A : Type) :=
| Returns (a : A)
| Aborts (f : Fault).
Arguments Returns {A} a.
Arguments Aborts {A} f.

Definition State : Type := World * FrameBuffer.

Definition M (A : Type) : Type := State -> Outcome (A * State).

Definition ret {A} (a : A) : M A := fun s => Returns (a, s).

Definition bind_ {A B} (m : M A) (k : A -> M B) : M B :=
  fun s => match m s with
           | Returns (a, s') => k a s'
           | Aborts f => Aborts f
           end.

Definition abort {A} (f : Fault) : M A := fun _ => Aborts f.

Definition getW : M World := fun s => Returns (fst s, s).
Definition getF : M FrameBuffer := fun s => Returns (snd s, s).
Definition modW (f : World -> World) : M unit :=
  fun s => Returns (tt, (f (fst s), snd s)).
Definition modF (f : FrameBuffer -> FrameBuffer) : M unit :=
  fun s => Returns (tt, (fst s, f (snd s))).
(** Modelled from the spec: the calls into the painter and into GL,
    whose code is absent from the sources. The spec describes them as
    collaborators that carry out what they are asked (the painter
    "issues textured-quad draws"): a call is recorded in the trace with
    its arguments and returns. *)
Definition emit (c : Call) : M unit := modW (log c).
Definition assert (b : bool) : M unit :=
  if b then ret tt else abort AssertionFailure.
(** dereference of a smart pointer *)
Definition deref {A} (p : option A) : M A :=
  match p with Some a => ret a | None => abort NullDereference end.

Declare Scope fb_scope.
Delimit Scope fb_scope with fb.
Notation "x <- m ;; k" := (bind_ m (fun x => k))
  (at level 100, m at next level, right associativity) : fb_scope.
Notation "m ;;; k" := (bind_ m (fun _ => k))
  (at level 100, right associativity) : fb_scope.
Local Open Scope fb_scope.

(** The state after a run, when it returns. *)
Definition exec {A} (m : M A) (s : State) : Outcome State :=
  match m s with
  | Returns (_, s') => Returns s'
  | Aborts f => Aborts f
  end.

(** ** Integer conversions *)

(** Conversion to [uint8_t]. For an integer operand this is the
    reduction modulo 256 the language prescribes. For the [double] that
    [flushTime] hands to [std::min<uint8_t>] the language defines the
    conversion only for values within 0..255; the results below that
    depend on the value of [flushTime] assume that range. *)
Definition to_uint8 (z : Z) : Z := z mod 256.

(** Wrap-around of an unsigned counter of the given width. *)
Definition wrap (bits : N) (n : N) : N := (n mod 2 ^ bits)%N.

Section WithFeatures.

Variable F : Features.

(** [Size::isValid] belongs to the geometry header, which is not part of
    the sources at hand. *)
Variable isValid : Size -> bool.

(** ** FrameBuffer::internalCreate *)

Definition internalCreate : M unit :=
  modF (set_prevBoundFbo 0%N) ;;;
  modF (set_requestAmount 0%N) ;;;
  modF (set_fbo 0%N) ;;;
  w <- getW ;;
  if canUseFBO w then
    emit (glGenFramebuffers (next_fbo w)) ;;;
    modF (set_fbo (next_fbo w)) ;;;
    modW (set_next_fbo (next_fbo w + 1)%N) ;;;
    if (next_fbo w =? 0)%N then abort FatalError else ret tt
  else ret tt.

(** ** FrameBuffer::getSize *)

Definition getSize : M Size :=
  fb <- getF ;;
  if (m_fbo fb =? 0)%N then
    t <- deref (m_texture fb) ;;
    w <- getW ;;
    ret (mkSize (Z.min (wd (tex_size t)) (wd (window_size w)))
                (Z.min (ht (tex_size t)) (ht (window_size w))))
  else
    t <- deref (m_texture fb) ;;
    ret (tex_size t).

(** ** FrameBuffer::internalBind *)

Definition internalBind : M unit :=
  fb <- getF ;;
  w <- getW ;;
  if negb (m_fbo fb =? 0)%N then
    assert (negb (boundFbo w =? m_fbo fb)%N) ;;;
    emit (glBindFramebuffer (m_fbo fb)) ;;;
    modF (set_prevBoundFbo (boundFbo w)) ;;;
    modW (set_boundFbo (m_fbo fb))
  else if m_backuping fb then
    size <- getSize ;;
    b <- deref (m_screenBackup fb) ;;
    modF (set_screenBackup (Some (copyFromScreen (mkRect 0 0 size) b))) ;;;
    emit (tex_copyFromScreen (tex_id b) (mkRect 0 0 size))
  else ret tt.

(** ** FrameBuffer::internalRelease *)

Definition internalRelease : M unit :=
  fb <- getF ;;
  w <- getW ;;
  if negb (m_fbo fb =? 0)%N then
    assert (boundFbo w =? m_fbo fb)%N ;;;
    emit (glBindFramebuffer (m_prevBoundFbo fb)) ;;;
    modW (set_boundFbo (m_prevBoundFbo fb))
  else
    size <- getSize ;;
    let screenRect := mkRect 0 0 size in
    t <- deref (m_texture fb) ;;
    modF (set_texture (Some (copyFromScreen screenRect t))) ;;;
    emit (tex_copyFromScreen (tex_id t) screenRect) ;;;
    if m_backuping fb then
      emit glDisable_BLEND ;;;
      emit resetColor ;;;
      emit (drawTexturedRect screenRect (m_screenBackup fb) screenRect) ;;;
      emit glEnable_BLEND
    else ret tt.

(** ** FrameBuffer::resize *)

(** [new Texture(size)]: the texture takes the next free GL name. *)
Definition newTexture (size : Size) : M Texture :=
  w <- getW ;;
  modW (set_next_texture (next_texture w + 1)%N) ;;;
  ret (Texture_new (next_texture w) size).

Definition same_size (p : option Texture) (size : Size) : bool :=
  match p with
  | Some t => Size_eqb (tex_size t) size
  | None => false
  end.

Definition resize (size : Size) : M unit :=
  assert (isValid size) ;;;
  fb <- getF ;;
  if same_size (m_texture fb) size then ret tt
  else
    t <- newTexture size ;;
    let t := setUpsideDown true (setSmooth (m_smooth fb) t) in
    modF (set_texture (Some t)) ;;;
    if negb (m_fbo fb =? 0)%N then
      internalBind ;;;
      emit (glFramebufferTexture2D (tex_id t)) ;;;
      w <- getW ;;
      (if fbo_complete w then ret tt else abort FatalError) ;;;
      internalRelease
    else if m_backuping fb then
      b <- newTexture size ;;
      modF (set_screenBackup (Some (setUpsideDown true b)))
    else ret tt.

(** ** FrameBuffer::bind and FrameBuffer::release *)

Definition bind : M unit :=
  emit saveAndResetState ;;;
  internalBind ;;;
  fb <- getF ;;
  t <- deref (m_texture fb) ;;
  emit (setResolution (tex_size t)).

Definition scheduling_compiled : bool := negb (SCHEDULE_PAINTING F =? 0).

Definition release : M unit :=
  internalRelease ;;;
  emit restoreSavedState ;;;
  modF (set_forceUpdate false) ;;;
  w <- getW ;;
  modF (set_lastRenderedTime (clock w)) ;;;
  if scheduling_compiled then modF (set_requestAmount 0%N) else ret tt.

(** ** FrameBuffer::draw, the three overloads *)

Definition draw : M unit :=
  fb <- getF ;;
  if negb (m_drawable fb) then ret tt
  else
    size <- getSize ;;
    let rect := mkRect 0 0 size in
    emit (drawTexturedRect rect (m_texture fb) rect).

Definition draw_dest_src (dest src : Rect) : M unit :=
  fb <- getF ;;
  if negb (m_drawable fb) then ret tt
  else emit (drawTexturedRect dest (m_texture fb) src).

Definition draw_dest (dest : Rect) : M unit :=
  fb <- getF ;;
  if negb (m_drawable fb) then ret tt
  else
    size <- getSize ;;
    emit (drawTexturedRect dest (m_texture fb) (mkRect 0 0 size)).


(** ** Update scheduling *)

(** Both guards of [canUpdate], [update] and [schedulePainting]. *)
Definition scheduling (fb : FrameBuffer) : bool :=
  scheduling_compiled && m_schedulePaintingEnabled fb.

Definition flushTime (fb : FrameBuffer) : Z :=
  if FLUSH_CONTROL_FOR_RENDERING F =? 1 then
    Z.min (to_uint8 (MIN_TIME_UPDATE F +
                     to_uint8 (Z.quot (Z.of_N (m_requestAmount fb)) (FLUSH_AMOUNT F))))
          (to_uint8 (MAX_TIME_UPDATE F))
  else to_uint8 (MIN_TIME_UPDATE F).

(** [m_lastRenderedTime.ticksElapsed()] *)
Definition ticksElapsed (w : World) (fb : FrameBuffer) : Z :=
  clock w - m_lastRenderedTime fb.

Definition canUpdate (w : World) (fb : FrameBuffer) : bool :=
  if scheduling fb then
    m_forceUpdate fb ||
    ((0 <? m_requestAmount fb)%N && (flushTime fb <=? ticksElapsed w fb))
  else
    m_forceUpdate fb || (flushTime fb <=? ticksElapsed w fb).

Definition update (fb : FrameBuffer) : FrameBuffer :=
  if scheduling fb then
    set_requestAmount (wrap (request_bits F) (m_requestAmount fb + 1)) fb
  else fb.

(** The entry [m_schedules[time]] refers to: a missing key reads as the
    default-constructed pair. *)
Definition schedule_at (fb : FrameBuffer) (time : N) : N * option nat :=
  default (0%N, None) (m_schedules fb !! time).

(** Body of the callback handed to the dispatcher. *)
Definition callback (fb : FrameBuffer) : FrameBuffer :=
  if FORCE_ANIMATED_RENDERING F =? 1 then set_forceUpdate true fb
  else update fb.

Definition schedulePainting (time : N) (s : State) : State :=
  let (w, fb) := s in
  if negb scheduling_compiled || negb (m_schedulePaintingEnabled fb) then s
  else if (time =? 0)%N then s
  else if Z.of_N time =? FORCE_UPDATE F then (w, set_forceUpdate true fb)
  else if Z.of_N time <=? MIN_TIME_UPDATE F then (w, update fb)
  else
    let schedule := schedule_at fb time in
    let (w', second) :=
      if (fst schedule =? 0)%N
      then let (h, w') := cycleEvent time w in (w', Some h)
      else (w, snd schedule) in
    (w', set_schedules
           (<[time := (wrap (schedule_bits F) (fst schedule + 1), second)]>
              (m_schedules fb)) fb).

Definition removeRenderingTime (time : N) (s : State) : State :=
  let (w, fb) := s in
  if negb scheduling_compiled then s
  else
    let schedule := schedule_at fb time in
    if (fst schedule =? 0)%N
    then (w, set_schedules (<[time := schedule]> (m_schedules fb)) fb)
    else
      let first := wrap (schedule_bits F) (fst schedule - 1) in
      match (first =? 0)%N, snd schedule with
      | true, Some h =>
          (cancel h w,
           set_schedules (<[time := (first, None)]> (m_schedules fb)) fb)
      | _, _ =>
          (w, set_schedules (<[time := (first, snd schedule)]> (m_schedules fb)) fb)
      end.

End WithFeatures.

(** ** Sequences of operations on one instance *)

Inductive Op :=
| op_resize (size : Size)
| op_bind
| op_release
| op_draw
| op_draw_dest (dest : Rect)
| op_draw_dest_src (dest src : Rect)
| op_getSize
| op_canUpdate
| op_update
| op_schedulePainting (time : N)
| op_removeRenderingTime (time : N)
(** the dispatcher fires the callback of a scheduled event *)
| op_callback.

Definition step (F : Features) (isValid : Size -> bool) (o : Op) (s : State)
  : Outcome State :=
  match o with
  | op_resize size => exec (resize isValid size) s
  | op_bind => exec bind s
  | op_release => exec (release F) s
  | op_draw => exec draw s
  | op_draw_dest dest => exec (draw_dest dest) s
  | op_draw_dest_src dest src => exec (draw_dest_src dest src) s
  | op_getSize => exec getSize s
  | op_canUpdate => Returns s
  | op_update => Returns (fst s, update F (snd s))
  | op_schedulePainting time => Returns (schedulePainting F time s)
  | op_removeRenderingTime time => Returns (removeRenderingTime F time s)
  | op_callback => Returns (fst s, callback F (snd s))
  end.

Fixpoint run (F : Features) (isValid : Size -> bool) (ops : list Op) (s : State)
  : Outcome State :=
  match ops with
  | [] => Returns s
  | o :: ops' =>
      match step F isValid o s with
      | Returns s' => run F isValid ops' s'
      | Aborts f => Aborts f
      end
  end.

(** ** Several instances

    The instances of the program, by number: a store of type
    [nat -> FrameBuffer]. They share the world, and with it [boundFbo];
    an operation on one of them leaves the members of the others
    alone. *)

Definition step_at (F : Features) (isValid : Size -> bool) (i : nat) (o : Op)
    (s : World * (nat -> FrameBuffer)) : Outcome (World * (nat -> FrameBuffer)) :=
  match step F isValid o (fst s, snd s i) with
  | Returns s' => Returns (fst s', <[i := snd s']> (snd s))
  | Aborts f => Aborts f
  end.

Fixpoint run_all (F : Features) (isValid : Size -> bool) (tr : list (nat * Op))
    (s : World * (nat -> FrameBuffer)) : Outcome (World * (nat -> FrameBuffer)) :=
  match tr with
  | [] => Returns s
  | (i, o) :: tr' =>
      match step_at F isValid i o s with
      | Returns s' => run_all F isValid tr' s'
      | Aborts f => Aborts f
      end
  end.

(** * Vocabulary of the properties *)

(** ** Frame conditions

    [preserves f m]: whenever the run [m] returns, the observation [f] of
    the state is what it was. *)
Definition preserves {A B} (f : State -> B) (m : M A) : Prop :=
  forall s a s', m s = Returns (a, s') -> f s' = f s.

(** The schedule table as an observation of the state. *)
Definition schedules_of (s : State) : gmap N (N * option nat) :=
  m_schedules (snd s).

(** What the binding protocol reads and writes. *)
Definition binding_of (s : State) : N * N * N * option Texture :=
  (boundFbo (fst s), m_fbo (snd s), m_prevBoundFbo (snd s), m_texture (snd s)).

(** ** The invariant of the schedule table *)

(** Every entry holds a handle exactly when its count is positive. *)
Definition schedules_consistent (fb : FrameBuffer) : Prop :=
  forall (t : N) c h,
    m_schedules fb !! t = Some (c, h) -> (h <> None <-> (0 < c)%N).

(** No entry counts more than [n] subscribers. *)
Definition counts_below (n : N) (fb : FrameBuffer) : Prop :=
  forall (t : N) c h, m_schedules fb !! t = Some (c, h) -> (c <= n)%N.

(** [schedulePainting(time)] gets past its early returns and reaches the
    table: scheduling is on and the duration is neither 0, nor the
    sentinel, nor within the minimum interval. *)
Definition subscribes (F : Features) (time : N) (fb : FrameBuffer) : bool :=
  scheduling F fb && negb (time =? 0)%N &&
  negb (Z.of_N time =? FORCE_UPDATE F) &&
  negb (Z.of_N time <=? MIN_TIME_UPDATE F).

(** The operation does not increment a reference count that is at the
    top of its range. *)
Definition in_range (F : Features) (o : Op) (s : State) : Prop :=
  match o with
  | op_schedulePainting time =>
      subscribes F time (snd s) = true ->
      (fst (schedule_at (snd s) time) + 1 < 2 ^ schedule_bits F)%N
  | _ => True
  end.

(** No operation of the run does. *)
Fixpoint counts_in_range (F : Features) (isValid : Size -> bool)
    (ops : list Op) (s : State) : Prop :=
  match ops with
  | [] => True
  | o :: ops' =>
      in_range F o s /\
      match step F isValid o s with
      | Returns s' => counts_in_range F isValid ops' s'
      | Aborts _ => True
      end
  end.

(** ** resize and the binding protocol *)

(** The state a resize leaves behind, for the properties that matter to
    the caller. *)
Definition resized (size : Size) (s s' : State) : Prop :=
  tex_size <$> m_texture (snd s') = Some size /\
  boundFbo (fst s') = boundFbo (fst s) /\
  m_fbo (snd s') = m_fbo (snd s) /\
  fbo_complete (fst s') = fbo_complete (fst s) /\
  m_backuping (snd s') = m_backuping (snd s).

(** The instance with handle [f] is bound over a previous binding [g]:
    with a GPU target the global identifier is [f] and [g] is kept for
    the release; without one the global identifier is left at [g]. *)
Definition bound_as (f g : N) (s : State) : Prop :=
  m_fbo (snd s) = f /\
  m_texture (snd s) <> None /\
  boundFbo (fst s) = (if (f =? 0)%N then g else f) /\
  (f <> 0%N -> m_prevBoundFbo (snd s) = g).

(** ** Nested bindings

    The calls to [bind] that have not been released yet form a stack,
    innermost first. *)

(** The stack after a sequence of calls on several instances, started
    with the stack [open]. The answer is [None] when the calls are not
    properly paired: a [release] that does not match the innermost open
    [bind], a [bind] of an instance whose [bind] is still open, or a
    [resize] of an instance while another one is bound over it. *)
Fixpoint opens (open : list nat) (tr : list (nat * Op)) : option (list nat) :=
  match tr with
  | [] => Some open
  | (i, o) :: tr' =>
      match o with
      | op_bind => if decide (i ∈ open) then None else opens (i :: open) tr'
      | op_release =>
          match open with
          | j :: open' => if decide (i = j) then opens open' tr' else None
          | [] => None
          end
      | op_resize _ => if decide (i ∈ tail open) then None else opens open tr'
      | _ => opens open tr'
      end
  end.

(** The handle the stack answers for: that of the innermost open
    instance that owns a GPU target, and [b0], the identifier found by
    the outermost [bind], when there is none. *)
Fixpoint innermost (b0 : N) (fbs : nat -> FrameBuffer) (open : list nat) : N :=
  match open with
  | [] => b0
  | i :: open' =>
      if (m_fbo (fbs i) =? 0)%N then innermost b0 fbs open' else m_fbo (fbs i)
  end.

(** Every open instance that owns a GPU target remembers what the stack
    below it answers for. *)
Fixpoint remembered (b0 : N) (fbs : nat -> FrameBuffer) (open : list nat) : Prop :=
  match open with
  | [] => True
  | i :: open' =>
      (m_fbo (fbs i) <> 0%N -> m_prevBoundFbo (fbs i) = innermost b0 fbs open') /\
      remembered b0 fbs open'
  end.

(** The invariant of the binding protocol. *)
Definition nested (b0 : N) (open : list nat) (s : World * (nat -> FrameBuffer)) : Prop :=
  NoDup open /\
  boundFbo (fst s) = innermost b0 (snd s) open /\
  remembered b0 (snd s) open.

(** The operations that may run between [bind] and the matching
    [release]. *)
Definition inner (o : Op) : Prop :=
  match o with
  | op_bind | op_release => False
  | _ => True
  end.

(** * Configurations and states to evaluate the model on

    The values of the constants are set in headers outside the sources
    at hand; the instances below only serve to run the definitions on
    concrete inputs. *)

Definition sample_features : Features := {|
  SCHEDULE_PAINTING := 1;
  FORCE_ANIMATED_RENDERING := 0;
  FLUSH_CONTROL_FOR_RENDERING := 1;
  MIN_TIME_UPDATE := 16;
  MAX_TIME_UPDATE := 100;
  FLUSH_AMOUNT := 500;
  FORCE_UPDATE := 65535;
  request_bits := 16;
  schedule_bits := 16
|}.



Definition sample_isValid (s : Size) : bool := (0 <=? wd s) && (0 <=? ht s).

Definition sample_world : World := {|
  boundFbo := 0;
  clock := 0;
  window_size := mkSize 800 600;
  canUseFBO := true;
  next_fbo := 1;
  next_texture := 1;
  fbo_complete := true;
  events := [];
  trace := []
|}.

(** An instance on a platform with off-screen targets: handle 1, no
    texture yet. *)
Definition sample_fb : FrameBuffer := {|
  m_texture := None;
  m_screenBackup := None;
  m_fbo := 1;
  m_prevBoundFbo := 0;
  m_backuping := true;
  m_smooth := true;
  m_drawable := true;
  m_forceUpdate := false;
  m_schedulePaintingEnabled := true;
  m_requestAmount := 0;
  m_lastRenderedTime := 0;
  m_schedules := ∅
|}.

(** An instance with scheduling switched off whose force flag is still
    set, as after [schedulePainting(FORCE_UPDATE)] followed by disabling
    scheduling. *)
Definition forced_unscheduled_fb : FrameBuffer := {|
  m_texture := None;
  m_screenBackup := None;
  m_fbo := 1;
  m_prevBoundFbo := 0;
  m_backuping := true;
  m_smooth := true;
  m_drawable := true;
  m_forceUpdate := true;
  m_schedulePaintingEnabled := false;
  m_requestAmount := 0;
  m_lastRenderedTime := 0;
  m_schedules := ∅
|}.

(** Two instances with GPU targets 1 and 2, both resized, and the world
    in which the second one is bound. *)
Definition texture_64 (id : N) : Texture :=
  setUpsideDown true (setSmooth true (Texture_new id (mkSize 64 64))).

Definition fb_one : FrameBuffer := set_texture (Some (texture_64 1)) sample_fb.

Definition fb_two : FrameBuffer :=
  set_fbo 2 (set_texture (Some (texture_64 2)) sample_fb).

Definition world_two_bound : World :=
  match exec bind (set_next_texture 3 (set_next_fbo 3 sample_world), fb_two) with
  | Returns s => fst s
  | Aborts _ => sample_world
  end.

(** A resized instance without GPU target, with its backup texture. *)
Definition fb_backup : FrameBuffer :=
  set_screenBackup (Some (setUpsideDown true (Texture_new 4 (mkSize 64 64))))
    (set_fbo 0 (set_texture (Some (texture_64 3)) sample_fb)).

(** Unfolds the operations and the primitives of [M]. *)
Ltac unfold_m :=
  unfold exec, bind, release, resize, internalBind, internalRelease, getSize,
    draw, draw_dest, draw_dest_src, newTexture, emit, bind_, getF, getW,
    modF, modW, assert, deref, ret, abort.

(** * Vocabulary of the further properties *)

(** ** The GL binding seen through the trace *)

(** The framebuffer GL has bound according to the calls made so far:
    the argument of the most recent [glBindFramebuffer]. *)
Fixpoint gl_binding (tr : list Call) : option N :=
  match tr with
  | [] => None
  | glBindFramebuffer fbo :: _ => Some fbo
  | _ :: tr' => gl_binding tr'
  end.

(** [boundFbo] agrees with what the trace says GL has bound. *)
Definition in_sync (w : World) : Prop :=
  forall b, gl_binding (trace w) = Some b -> boundFbo w = b.

(** The same, as a property of the state. *)
Definition synced (s : State) : Prop := in_sync (fst s).

(** [keeps P m]: a run of [m] that starts in [P] and returns ends in [P]. *)
Definition keeps {A} (P : State -> Prop) (m : M A) : Prop :=
  forall s a s', P s -> m s = Returns (a, s') -> P s'.

(** ** Ownership of the scheduled events *)

(** What the scheduling layer reads and writes outside the counters. *)
Definition dispatch_of (s : State) : list ScheduledEvent * gmap N (N * option nat) :=
  (events (fst s), m_schedules (snd s)).

(** The handle of an entry designates an event that is not cancelled and
    fires with the entry's duration. *)
Definition handles_alive (s : State) : Prop :=
  forall (t : N) c h,
    m_schedules (snd s) !! t = Some (c, Some h) ->
    events (fst s) !! h = Some (mkEvent t false).

(** Every event from position [n0] on that is not cancelled is held by
    the entry of its own duration. *)
Definition live_events_owned (n0 : nat) (s : State) : Prop :=
  forall i e,
    (n0 <= i)%nat ->
    events (fst s) !! i = Some e ->
    ev_cancelled e = false ->
    exists c, m_schedules (snd s) !! ev_delay e = Some (c, Some i).

(** The instance owns the events it registered since the dispatcher
    held [l0]: those earlier events are as they were, every handle in the
    table designates a live event registered since, firing with the
    entry's duration, and every live event registered since is held by
    the entry of its duration. *)
Definition tasks_owned (l0 : list ScheduledEvent) (s : State) : Prop :=
  take (length l0) (events (fst s)) = l0 /\
  (length l0 <= length (events (fst s)))%nat /\
  (forall (t : N) c h,
     m_schedules (snd s) !! t = Some (c, Some h) -> (length l0 <= h)%nat) /\
  handles_alive s /\
  live_events_owned (length l0) s.

(** ** What release and the backup leave behind *)

(** The bookkeeping at the end of [release], at clock value [now]. *)
Definition after_release (F : Features) (now : Z) (fb : FrameBuffer) : FrameBuffer :=
  let fb' := set_lastRenderedTime now (set_forceUpdate false fb) in
  if scheduling_compiled F then set_requestAmount 0%N fb' else fb'.

(** The screen region of an instance without GPU target: its texture,
    cut to the window. *)
Definition screen_rect (w : World) (t : Texture) : Rect :=
  mkRect 0 0 (mkSize (Z.min (wd (tex_size t)) (wd (window_size w)))
                     (Z.min (ht (tex_size t)) (ht (window_size w)))).

(** Two instances with GPU targets, given by their handles, textures
    allocated. *)
Definition fb_with_target (fbo : N) : FrameBuffer :=
  set_fbo fbo (set_texture (Some (texture_64 fbo)) sample_fb).

(** A store of instances with GPU targets, textures allocated: the
    instance number [i] has the handle [i + 1]. *)
Definition instances_with_targets : nat -> FrameBuffer :=
  fun i => fb_with_target (N.of_nat (S i)).

(** An instance with pending requests and two subscriptions to the
    duration 100, held by event 0. *)
Definition fb_subscribed : FrameBuffer :=
  set_requestAmount 3
    (set_schedules (<[100%N := (2%N, Some 0%nat)]> ∅) sample_fb).

Definition world_subscribed : World :=
  set_events [mkEvent 100 false] sample_world.

(** * Properties *)

(** ** Geometry *)

Lemma Size_eqb_eq a b : Size_eqb a b = true <-> a = b.
Proof.
  unfold Size_eqb. destruct a as [w1 h1], b as [w2 h2]; simpl.
  rewrite andb_true_iff, !Z.eqb_eq. split.
  - intros [-> ->]; reflexivity.
  - intros E; inversion E; auto.
Qed.

Lemma Size_eqb_refl a : Size_eqb a a = true.
Proof. apply Size_eqb_eq; reflexivity. Qed.

Lemma Size_eqb_neq a b : a <> b -> Size_eqb a b = false.
Proof.
  intros H. destruct (Size_eqb a b) eqn:E; [|reflexivity].
  apply Size_eqb_eq in E. contradiction.
Qed.

(** ** Construction *)

(** With off-screen targets available the instance takes the next GL
    name as its handle. *)
Example internalCreate_with_target :
  exec internalCreate (sample_world, set_fbo 0 sample_fb)
  = Returns (set_next_fbo 2 (log (glGenFramebuffers 1) sample_world), sample_fb).
Proof. reflexivity. Qed.

(** Without them its handle is 0, whatever it was. *)
Lemma internalCreate_without_target w fb :
  canUseFBO w = false ->
  exec internalCreate (w, fb)
  = Returns (w, set_fbo 0 (set_requestAmount 0 (set_prevBoundFbo 0 fb))).
Proof. intros H. unfold_m. unfold internalCreate, bind_, modF, getW. simpl. rewrite H. reflexivity. Qed.

(** ** canUpdate and flushTime *)

Lemma scheduling_true F fb :
  scheduling F fb = true <->
  SCHEDULE_PAINTING F <> 0 /\ m_schedulePaintingEnabled fb = true.
Proof.
  unfold scheduling, scheduling_compiled.
  rewrite andb_true_iff, negb_true_iff, Z.eqb_neq. reflexivity.
Qed.

Lemma scheduling_false F fb :
  scheduling F fb = false <->
  SCHEDULE_PAINTING F = 0 \/ m_schedulePaintingEnabled fb = false.
Proof.
  unfold scheduling, scheduling_compiled.
  rewrite andb_false_iff, negb_false_iff, Z.eqb_eq. reflexivity.
Qed.

(** C1. With scheduling compiled in and enabled on the instance,
    [canUpdate] is false when no request is pending and no update is
    forced, whatever the clock shows; and it is true exactly when the
    force flag is set, or a request is pending and at least [flushTime]
    ticks have elapsed since the last render. *)
Theorem canUpdate_scheduling_enabled F w fb :
  SCHEDULE_PAINTING F <> 0 ->
  m_schedulePaintingEnabled fb = true ->
  (m_requestAmount fb = 0%N -> m_forceUpdate fb = false ->
   canUpdate F w fb = false) /\
  (canUpdate F w fb = true <->
   m_forceUpdate fb = true \/
   ((0 < m_requestAmount fb)%N /\ flushTime F fb <= ticksElapsed w fb)).
Proof.
  intros Hc He.
  assert (Hs : scheduling F fb = true) by (apply scheduling_true; auto).
  unfold canUpdate. rewrite Hs. split.
  - intros -> ->. reflexivity.
  - rewrite orb_true_iff, andb_true_iff, N.ltb_lt, Z.leb_le. reflexivity.
Qed.

Lemma canUpdate_scheduling_enabled_witness :
  canUpdate sample_features sample_world sample_fb = false.
Proof.
  apply (canUpdate_scheduling_enabled sample_features sample_world sample_fb);
    [discriminate | reflexivity | reflexivity | reflexivity].
Defined.

Lemma to_uint8_small z : 0 <= z <= 255 -> to_uint8 z = z.
Proof. intros H. unfold to_uint8. apply Z.mod_small. lia. Qed.


(** While the sum stays within [uint8_t], the adaptive interval is the
    minimum plus the batched request count, capped. *)
Lemma flushTime_in_range F fb :
  FLUSH_CONTROL_FOR_RENDERING F = 1 ->
  0 < FLUSH_AMOUNT F -> 0 <= MIN_TIME_UPDATE F ->
  MIN_TIME_UPDATE F + Z.of_N (m_requestAmount fb) / FLUSH_AMOUNT F <= 255 ->
  flushTime F fb =
  Z.min (MIN_TIME_UPDATE F + Z.of_N (m_requestAmount fb) / FLUSH_AMOUNT F)
        (to_uint8 (MAX_TIME_UPDATE F)).
Proof.
  intros Hf Hq Hm Hr. unfold flushTime. rewrite Hf. simpl.
  rewrite Z.quot_div_nonneg by lia.
  assert (0 <= Z.of_N (m_requestAmount fb) / FLUSH_AMOUNT F)
    by (apply Z.div_pos; lia).
  rewrite (to_uint8_small (_ / _)) by lia.
  rewrite to_uint8_small by lia. reflexivity.
Qed.


Lemma flushTime_monotone_in_range F fb (a b : N) :
  FLUSH_CONTROL_FOR_RENDERING F = 1 ->
  0 < FLUSH_AMOUNT F -> 0 <= MIN_TIME_UPDATE F ->
  (a <= b)%N ->
  MIN_TIME_UPDATE F + Z.of_N b / FLUSH_AMOUNT F <= 255 ->
  flushTime F (set_requestAmount a fb) <= flushTime F (set_requestAmount b fb).
Proof.
  intros Hf Hq Hmin Hab Hfit.
  assert (Haq : Z.of_N a / FLUSH_AMOUNT F <= Z.of_N b / FLUSH_AMOUNT F)
    by (apply Z.div_le_mono; lia).
  rewrite !flushTime_in_range; simpl; try assumption; lia.
Qed.




(** The drop is no accident of these constants: whenever the bounds are
    [uint8_t] values with the minimum below the maximum, the interval is
    at its maximum for [FLUSH_AMOUNT * (MAX - MIN)] requests and back at
    its minimum for [256 * FLUSH_AMOUNT] of them. *)
Lemma flushTime_drops_at_truncation F fb :
  FLUSH_CONTROL_FOR_RENDERING F = 1 ->
  0 < FLUSH_AMOUNT F ->
  0 <= MIN_TIME_UPDATE F -> MIN_TIME_UPDATE F < MAX_TIME_UPDATE F ->
  MAX_TIME_UPDATE F <= 255 ->
  flushTime F (set_requestAmount
                 (Z.to_N (FLUSH_AMOUNT F * (MAX_TIME_UPDATE F - MIN_TIME_UPDATE F))) fb)
  = MAX_TIME_UPDATE F /\
  flushTime F (set_requestAmount (Z.to_N (256 * FLUSH_AMOUNT F)) fb)
  = MIN_TIME_UPDATE F.
Proof.
  intros Hf Hq Hmin Hlt Hmax. split.
  - rewrite flushTime_in_range; simpl; try assumption.
    + rewrite Z2N.id by nia. rewrite Z.mul_comm, Z.div_mul by lia.
      rewrite to_uint8_small by lia. lia.
    + rewrite Z2N.id by nia. rewrite Z.mul_comm, Z.div_mul by lia. lia.
  - unfold flushTime. rewrite Hf. simpl.
    rewrite Z2N.id by lia.
    rewrite Z.quot_div_nonneg by lia. rewrite Z.div_mul by lia.
    change (to_uint8 256) with 0. rewrite Z.add_0_r.
    rewrite !to_uint8_small by lia. lia.
Qed.

(** Where the sum fits [uint8_t] over the whole range of the counter,
    as with a 16-bit counter, a minimum of 16 and a batching factor of
    500, [flushTime] is non-decreasing over that whole range. *)
Lemma flushTime_monotone_over_counter_range F fb (a b : N) :
  FLUSH_CONTROL_FOR_RENDERING F = 1 ->
  0 < FLUSH_AMOUNT F ->
  0 <= MIN_TIME_UPDATE F ->
  MIN_TIME_UPDATE F + (2 ^ Z.of_N (request_bits F) - 1) / FLUSH_AMOUNT F <= 255 ->
  (a <= b)%N -> (b < 2 ^ request_bits F)%N ->
  flushTime F (set_requestAmount a fb) <= flushTime F (set_requestAmount b fb).
Proof.
  intros Hf Hq Hmin Hfit Hab Hb.
  assert (Hb' : Z.of_N b <= 2 ^ Z.of_N (request_bits F) - 1).
  { apply N2Z.inj_lt in Hb. rewrite N2Z.inj_pow in Hb. simpl in Hb. lia. }
  assert (Hbq : Z.of_N b / FLUSH_AMOUNT F
                <= (2 ^ Z.of_N (request_bits F) - 1) / FLUSH_AMOUNT F)
    by (apply Z.div_le_mono; lia).
  apply flushTime_monotone_in_range; try assumption. lia.
Qed.

Lemma update_unscheduled F fb : scheduling F fb = false -> update F fb = fb.
Proof. intros H. unfold update. rewrite H. reflexivity. Qed.

Lemma iter_update_unscheduled F fb n :
  scheduling F fb = false -> Nat.iter n (update F) fb = fb.
Proof.
  intros H. induction n as [|n IH]; simpl.
  - reflexivity.
  - rewrite IH. apply update_unscheduled, H.
Qed.

(** C8, as the code has it. With scheduling off (compiled out, or
    disabled on the instance) [canUpdate] is true exactly when the force
    flag is set or at least [flushTime] ticks have elapsed; [update]
    leaves the instance, hence the pending-request counter and the answer
    of [canUpdate], as they were, however often it is called. *)
Theorem canUpdate_scheduling_disabled F w fb :
  SCHEDULE_PAINTING F = 0 \/ m_schedulePaintingEnabled fb = false ->
  (canUpdate F w fb = true <->
   m_forceUpdate fb = true \/ flushTime F fb <= ticksElapsed w fb) /\
  (forall n,
     m_requestAmount (Nat.iter n (update F) fb) = m_requestAmount fb /\
     canUpdate F w (Nat.iter n (update F) fb) = canUpdate F w fb).
Proof.
  intros H. apply scheduling_false in H. split.
  - unfold canUpdate. rewrite H.
    rewrite orb_true_iff, Z.leb_le. reflexivity.
  - intros n. rewrite iter_update_unscheduled by assumption. auto.
Qed.

Lemma canUpdate_scheduling_disabled_witness :
  canUpdate sample_features sample_world forced_unscheduled_fb = true <->
  m_forceUpdate forced_unscheduled_fb = true \/
  flushTime sample_features forced_unscheduled_fb
  <= ticksElapsed sample_world forced_unscheduled_fb.
Proof.
  apply (canUpdate_scheduling_disabled sample_features sample_world
           forced_unscheduled_fb).
  right. reflexivity.
Defined.

(** C8 as stated fails: scheduling is off, no tick has elapsed, the flush
    interval is 16, and [canUpdate] still answers true because the force
    flag is set. *)
Lemma canUpdate_disabled_not_iff_elapsed :
  m_schedulePaintingEnabled forced_unscheduled_fb = false /\
  canUpdate sample_features sample_world forced_unscheduled_fb = true /\
  ticksElapsed sample_world forced_unscheduled_fb = 0 /\
  flushTime sample_features forced_unscheduled_fb = 16 /\
  ~ (canUpdate sample_features sample_world forced_unscheduled_fb = true <->
     flushTime sample_features forced_unscheduled_fb
     <= ticksElapsed sample_world forced_unscheduled_fb).
Proof.
  repeat split; try reflexivity.
  intros [H _]. specialize (H eq_refl). vm_compute in H. congruence.
Qed.

(** ** The schedule table *)

Lemma scheduling_compiled_true F :
  SCHEDULE_PAINTING F <> 0 -> scheduling_compiled F = true.
Proof.
  intros H. unfold scheduling_compiled.
  apply negb_true_iff, Z.eqb_neq, H.
Qed.


Lemma schedulePainting_force F w fb (time : N) :
  SCHEDULE_PAINTING F <> 0 -> m_schedulePaintingEnabled fb = true ->
  time <> 0%N -> Z.of_N time = FORCE_UPDATE F ->
  schedulePainting F time (w, fb) = (w, set_forceUpdate true fb).
Proof.
  intros Hc He H0 Hf. unfold schedulePainting.
  rewrite (scheduling_compiled_true F Hc), He. simpl.
  apply N.eqb_neq in H0. rewrite H0.
  apply Z.eqb_eq in Hf. rewrite Hf. reflexivity.
Qed.

Lemma schedulePainting_below_minimum F w fb (time : N) :
  SCHEDULE_PAINTING F <> 0 -> m_schedulePaintingEnabled fb = true ->
  time <> 0%N -> Z.of_N time <> FORCE_UPDATE F ->
  Z.of_N time <= MIN_TIME_UPDATE F ->
  schedulePainting F time (w, fb) = (w, update F fb).
Proof.
  intros Hc He H0 Hf Hm. unfold schedulePainting.
  rewrite (scheduling_compiled_true F Hc), He. simpl.
  apply N.eqb_neq in H0. rewrite H0.
  apply Z.eqb_neq in Hf. rewrite Hf.
  apply Z.leb_le in Hm. rewrite Hm. reflexivity.
Qed.





(** Where the sentinel is nonzero and above the minimum interval, as a
    value like 65535 is, the exceptions are empty and every nonzero
    duration up to the minimum acts as [update()]. *)
Lemma schedulePainting_sentinel_above_minimum F w fb (force : N) :
  SCHEDULE_PAINTING F <> 0 ->
  m_schedulePaintingEnabled fb = true ->
  Z.of_N force = FORCE_UPDATE F ->
  force <> 0%N ->
  MIN_TIME_UPDATE F < FORCE_UPDATE F ->
  schedulePainting F force (w, fb) = (w, set_forceUpdate true fb) /\
  (forall d : N, (0 < d)%N -> Z.of_N d <= MIN_TIME_UPDATE F ->
     schedulePainting F d (w, fb) = (w, update F fb)).
Proof.
  intros Hc He Hf H0 Hlt. split.
  - apply schedulePainting_force; assumption.
  - intros d Hpos Hd. apply schedulePainting_below_minimum; try assumption; lia.
Qed.

(** ** Subscribing and unsubscribing *)

Lemma schedule_at_insert fb (time : N) e :
  schedule_at (set_schedules (<[time := e]> (m_schedules fb)) fb) time = e.
Proof. unfold schedule_at. simpl. rewrite lookup_insert_eq. reflexivity. Qed.

Lemma wrap_small bits (n : N) : (n < 2 ^ bits)%N -> wrap bits n = n.
Proof. intros H. unfold wrap. apply N.mod_small, H. Qed.

Lemma pow2_ge_4 (bits : N) : (2 <= bits)%N -> (4 <= 2 ^ bits)%N.
Proof.
  intros H. change 4%N with (2 ^ 2)%N. apply N.pow_le_mono_r; lia.
Qed.

(** A first subscription to a duration above the minimum registers one
    event with the dispatcher and stores its handle. *)
Lemma schedulePainting_first F w fb (time : N) :
  SCHEDULE_PAINTING F <> 0 -> m_schedulePaintingEnabled fb = true ->
  time <> 0%N -> Z.of_N time <> FORCE_UPDATE F ->
  MIN_TIME_UPDATE F < Z.of_N time ->
  fst (schedule_at fb time) = 0%N ->
  schedulePainting F time (w, fb) =
  (set_events (events w ++ [mkEvent time false]) w,
   set_schedules (<[time := (wrap (schedule_bits F) 1, Some (length (events w)))]>
                    (m_schedules fb)) fb).
Proof.
  intros Hc He H0 Hf Hm Hz. unfold schedulePainting.
  rewrite (scheduling_compiled_true F Hc), He. simpl.
  apply N.eqb_neq in H0. rewrite H0.
  apply Z.eqb_neq in Hf. rewrite Hf.
  apply Z.leb_gt in Hm. rewrite Hm.
  rewrite Hz. reflexivity.
Qed.

(** A further subscription shares the event. *)
Lemma schedulePainting_again F w fb (time : N) :
  SCHEDULE_PAINTING F <> 0 -> m_schedulePaintingEnabled fb = true ->
  time <> 0%N -> Z.of_N time <> FORCE_UPDATE F ->
  MIN_TIME_UPDATE F < Z.of_N time ->
  fst (schedule_at fb time) <> 0%N ->
  schedulePainting F time (w, fb) =
  (w, set_schedules
        (<[time := (wrap (schedule_bits F) (fst (schedule_at fb time) + 1),
                    snd (schedule_at fb time))]> (m_schedules fb)) fb).
Proof.
  intros Hc He H0 Hf Hm Hz. unfold schedulePainting.
  rewrite (scheduling_compiled_true F Hc), He. simpl.
  apply N.eqb_neq in H0. rewrite H0.
  apply Z.eqb_neq in Hf. rewrite Hf.
  apply Z.leb_gt in Hm. rewrite Hm.
  apply N.eqb_neq in Hz. rewrite Hz. reflexivity.
Qed.

Lemma set_schedules_twice m1 m2 fb :
  set_schedules m2 (set_schedules m1 fb) = set_schedules m2 fb.
Proof. reflexivity. Qed.

Lemma cancel_last (w : World) l e :
  cancel (length l) (set_events (l ++ [e]) w) = set_events (l ++ [ev_cancel e]) w.
Proof.
  unfold cancel, set_events. simpl. f_equal.
  rewrite <- (Nat.add_0_r (length l)). rewrite alter_app_r. reflexivity.
Qed.

(** C5. With scheduling on and no subscriber yet for a duration [d]
    above the minimum (not zero, not the sentinel), two calls of
    [schedulePainting(d)] register exactly one event with the dispatcher
    and bring the reference count to 2; one [removeRenderingTime(d)]
    leaves the event alive with count 1; a second one brings the count to
    0, cancels the event and clears the handle. *)
Theorem schedule_twice_remove_twice F w fb (d : N) :
  SCHEDULE_PAINTING F <> 0 ->
  m_schedulePaintingEnabled fb = true ->
  d <> 0%N ->
  Z.of_N d <> FORCE_UPDATE F ->
  MIN_TIME_UPDATE F < Z.of_N d ->
  (2 <= schedule_bits F)%N ->
  fst (schedule_at fb d) = 0%N ->
  let h := length (events w) in
  let s2 := schedulePainting F d (schedulePainting F d (w, fb)) in
  let s3 := removeRenderingTime F d s2 in
  let s4 := removeRenderingTime F d s3 in
  (events (fst s2) = events w ++ [mkEvent d false] /\
   schedule_at (snd s2) d = (2%N, Some h)) /\
  (events (fst s3) = events w ++ [mkEvent d false] /\
   schedule_at (snd s3) d = (1%N, Some h)) /\
  (events (fst s4) = events w ++ [mkEvent d true] /\
   schedule_at (snd s4) d = (0%N, None)).
Proof.
  intros Hc He H0 Hf Hm Hbits Hz h s2 s3 s4.
  pose proof (pow2_ge_4 _ Hbits) as Hpow.
  assert (E2 : s2 =
    (set_events (events w ++ [mkEvent d false]) w,
     set_schedules (<[d := (2%N, Some h)]> (m_schedules fb)) fb)).
  { subst s2. rewrite schedulePainting_first by assumption.
    rewrite schedulePainting_again; try assumption.
    - rewrite schedule_at_insert. simpl.
      rewrite (wrap_small _ 1) by lia. rewrite wrap_small by lia.
      rewrite set_schedules_twice. simpl. rewrite insert_insert_eq. reflexivity.
    - rewrite schedule_at_insert. simpl. rewrite wrap_small by lia. lia. }
  assert (E3 : s3 =
    (set_events (events w ++ [mkEvent d false]) w,
     set_schedules (<[d := (1%N, Some h)]> (m_schedules fb)) fb)).
  { subst s3. rewrite E2. unfold removeRenderingTime.
    rewrite (scheduling_compiled_true F Hc). simpl.
    rewrite schedule_at_insert. simpl.
    rewrite wrap_small by lia. simpl.
    rewrite set_schedules_twice. simpl. rewrite insert_insert_eq. reflexivity. }
  assert (E4 : s4 =
    (set_events (events w ++ [mkEvent d true]) w,
     set_schedules (<[d := (0%N, None)]> (m_schedules fb)) fb)).
  { subst s4. rewrite E3. unfold removeRenderingTime.
    rewrite (scheduling_compiled_true F Hc). simpl.
    rewrite schedule_at_insert. simpl.
    rewrite wrap_small by lia. simpl.
    rewrite set_schedules_twice. simpl. rewrite insert_insert_eq.
    subst h. rewrite cancel_last. reflexivity. }
  rewrite E2, E3, E4. simpl. rewrite !schedule_at_insert. auto.
Qed.

Lemma schedule_twice_remove_twice_witness :
  let s2 := schedulePainting sample_features 100
              (schedulePainting sample_features 100 (sample_world, sample_fb)) in
  events (fst s2) = [mkEvent 100 false] /\
  schedule_at (snd s2) 100 = (2%N, Some 0%nat).
Proof.
  apply (schedule_twice_remove_twice sample_features sample_world sample_fb 100);
    vm_compute; congruence.
Defined.

(** ** Frame conditions *)

Lemma preserves_ret {A B} (f : State -> B) (a : A) : preserves f (ret a).
Proof. intros s a' s' H. inversion H; reflexivity. Qed.

Lemma preserves_abort {A B} (f : State -> B) e : preserves f (@abort A e).
Proof. intros s a s' H. discriminate. Qed.

Lemma preserves_bind {A B C} (f : State -> C) (m : M A) (k : A -> M B) :
  preserves f m -> (forall a, preserves f (k a)) -> preserves f (bind_ m k).
Proof.
  intros Hm Hk s b s' H. unfold bind_ in H.
  destruct (m s) as [[a s1]|e] eqn:E; [|discriminate].
  rewrite (Hk a _ _ _ H). apply (Hm _ _ _ E).
Qed.

Lemma preserves_getW {B} (f : State -> B) : preserves f getW.
Proof. intros s a s' H. inversion H; reflexivity. Qed.

Lemma preserves_getF {B} (f : State -> B) : preserves f getF.
Proof. intros s a s' H. inversion H; reflexivity. Qed.

Lemma preserves_assert {B} (f : State -> B) b : preserves f (assert b).
Proof. destruct b; [apply preserves_ret | apply preserves_abort]. Qed.

Lemma preserves_deref {A B} (f : State -> B) (p : option A) :
  preserves f (deref p).
Proof. destruct p; [apply preserves_ret | apply preserves_abort]. Qed.

Lemma preserves_modW {B} (f : State -> B) g :
  (forall w fb, f (g w, fb) = f (w, fb)) -> preserves f (modW g).
Proof. intros Hg [w fb] a s' H. inversion H; subst. apply Hg. Qed.

Lemma preserves_modF {B} (f : State -> B) g :
  (forall w fb, f (w, g fb) = f (w, fb)) -> preserves f (modF g).
Proof. intros Hg [w fb] a s' H. inversion H; subst. apply Hg. Qed.

Lemma preserves_exec {A B} (f : State -> B) (m : M A) s s' :
  preserves f m -> exec m s = Returns s' -> f s' = f s.
Proof.
  intros Hp H. unfold exec in H.
  destruct (m s) as [[a s1]|e] eqn:E; [|discriminate].
  inversion H; subst. apply (Hp _ _ _ E).
Qed.

(** Decomposes a run into its primitive steps; what is left are the
    side conditions of [modW] and [modF]. *)
Ltac frame :=
  repeat first
    [ apply preserves_ret
    | apply preserves_abort
    | apply preserves_getW
    | apply preserves_getF
    | apply preserves_assert
    | apply preserves_deref
    | apply preserves_bind; [|intros ?]
    | apply preserves_modW; intros ? ?
    | apply preserves_modF; intros ? ?
    | match goal with
      | |- preserves _ (if ?b then _ else _) => destruct b
      | |- preserves _ (let _ := _ in _) => cbv zeta
      end ].

Lemma getSize_schedules : preserves schedules_of getSize.
Proof. unfold getSize. frame. Qed.

Lemma internalBind_schedules : preserves schedules_of internalBind.
Proof. unfold internalBind, emit. frame; reflexivity. Qed.

Lemma internalRelease_schedules : preserves schedules_of internalRelease.
Proof. unfold internalRelease, emit. frame; reflexivity. Qed.

Lemma resize_schedules isValid size : preserves schedules_of (resize isValid size).
Proof. unfold resize, newTexture, emit. frame; reflexivity. Qed.

Lemma bind_schedules : preserves schedules_of bind.
Proof. unfold bind, emit. frame; reflexivity. Qed.

Lemma release_schedules F : preserves schedules_of (release F).
Proof. unfold release, emit. frame; reflexivity. Qed.

Lemma draw_schedules : preserves schedules_of draw.
Proof. unfold draw, emit. frame; reflexivity. Qed.

Lemma draw_dest_schedules dest : preserves schedules_of (draw_dest dest).
Proof. unfold draw_dest, emit. frame; reflexivity. Qed.

Lemma draw_dest_src_schedules dest src :
  preserves schedules_of (draw_dest_src dest src).
Proof. unfold draw_dest_src, emit. frame; reflexivity. Qed.

Lemma update_schedules F fb : m_schedules (update F fb) = m_schedules fb.
Proof. unfold update. destruct (scheduling F fb); reflexivity. Qed.

Lemma callback_schedules F fb : m_schedules (callback F fb) = m_schedules fb.
Proof.
  unfold callback. destruct (FORCE_ANIMATED_RENDERING F =? 1);
    [reflexivity | apply update_schedules].
Qed.

(** ** The invariant of the schedule table *)

Lemma schedule_at_consistent fb (t : N) :
  schedules_consistent fb ->
  snd (schedule_at fb t) <> None <-> (0 < fst (schedule_at fb t))%N.
Proof.
  intros H. unfold schedule_at.
  destruct (m_schedules fb !! t) as [[c h]|] eqn:E; simpl.
  - apply (H t c h E).
  - split; [congruence | lia].
Qed.

Lemma schedule_at_below n fb (t : N) :
  counts_below n fb -> (fst (schedule_at fb t) <= n)%N.
Proof.
  intros H. unfold schedule_at.
  destruct (m_schedules fb !! t) as [[c h]|] eqn:E; simpl.
  - apply (H t c h E).
  - lia.
Qed.

Lemma consistent_insert fb (t : N) c h :
  schedules_consistent fb ->
  (h <> None <-> (0 < c)%N) ->
  schedules_consistent (set_schedules (<[t := (c, h)]> (m_schedules fb)) fb).
Proof.
  intros Hfb Hch t' c' h'. simpl. rewrite lookup_insert.
  destruct (decide (t = t')) as [->|Hne].
  - intros E. inversion E; subst. exact Hch.
  - apply Hfb.
Qed.

Lemma below_insert n fb (t : N) c h :
  counts_below n fb -> (c <= n)%N ->
  counts_below n (set_schedules (<[t := (c, h)]> (m_schedules fb)) fb).
Proof.
  intros Hfb Hc t' c' h'. simpl. rewrite lookup_insert.
  destruct (decide (t = t')) as [->|Hne].
  - intros E. inversion E; subst. exact Hc.
  - apply Hfb.
Qed.

Lemma consistent_same_schedules fb fb' :
  m_schedules fb' = m_schedules fb ->
  schedules_consistent fb -> schedules_consistent fb'.
Proof. intros E H t c h. rewrite E. apply H. Qed.

Lemma below_same_schedules n fb fb' :
  m_schedules fb' = m_schedules fb ->
  counts_below n fb -> counts_below n fb'.
Proof. intros E H t c h. rewrite E. apply H. Qed.

Lemma below_weaken n n' fb :
  (n <= n')%N -> counts_below n fb -> counts_below n' fb.
Proof. intros Hn H t c h E. specialize (H t c h E). lia. Qed.

Lemma schedulePainting_consistent F w fb (time : N) :
  schedules_consistent fb ->
  (fst (schedule_at fb time) + 1 < 2 ^ schedule_bits F)%N ->
  schedules_consistent (snd (schedulePainting F time (w, fb))).
Proof.
  intros Hfb Hroom. unfold schedulePainting.
  destruct (negb (scheduling_compiled F) || negb (m_schedulePaintingEnabled fb));
    [exact Hfb|].
  destruct (time =? 0)%N; [exact Hfb|].
  destruct (Z.of_N time =? FORCE_UPDATE F); [exact Hfb|].
  destruct (Z.of_N time <=? MIN_TIME_UPDATE F).
  { simpl. eapply consistent_same_schedules; [apply update_schedules | exact Hfb]. }
  rewrite wrap_small by exact Hroom.
  destruct (fst (schedule_at fb time) =? 0)%N eqn:E0; simpl.
  - apply consistent_insert; [exact Hfb|]. split; [lia | congruence].
  - apply consistent_insert; [exact Hfb|].
    apply N.eqb_neq in E0.
    pose proof (schedule_at_consistent fb time Hfb) as Hc.
    split; [lia|]. intros _. apply Hc. lia.
Qed.

Lemma schedulePainting_below F n w fb (time : N) :
  counts_below n fb ->
  counts_below (n + 1) (snd (schedulePainting F time (w, fb))).
Proof.
  intros Hfb.
  assert (Hw : counts_below (n + 1) fb) by (eapply below_weaken; [|exact Hfb]; lia).
  unfold schedulePainting.
  destruct (negb (scheduling_compiled F) || negb (m_schedulePaintingEnabled fb));
    [exact Hw|].
  destruct (time =? 0)%N; [exact Hw|].
  destruct (Z.of_N time =? FORCE_UPDATE F); [exact Hw|].
  destruct (Z.of_N time <=? MIN_TIME_UPDATE F).
  { simpl. eapply below_same_schedules; [apply update_schedules | exact Hw]. }
  pose proof (schedule_at_below n fb time Hfb) as Hc.
  assert (Hle : (wrap (schedule_bits F) (fst (schedule_at fb time) + 1) <= n + 1)%N).
  { unfold wrap.
    etransitivity; [apply N.Div0.mod_le|]. lia. }
  destruct (fst (schedule_at fb time) =? 0)%N; simpl;
    apply below_insert; assumption.
Qed.

Lemma removeRenderingTime_consistent F w fb (time : N) :
  schedules_consistent fb ->
  schedules_consistent (snd (removeRenderingTime F time (w, fb))).
Proof.
  intros Hfb. unfold removeRenderingTime.
  destruct (negb (scheduling_compiled F)); [exact Hfb|].
  pose proof (schedule_at_consistent fb time Hfb) as Hc.
  destruct (fst (schedule_at fb time) =? 0)%N eqn:E0.
  - simpl. destruct (schedule_at fb time) as [c h] eqn:Es. simpl in *.
    apply consistent_insert; [exact Hfb | exact Hc].
  - apply N.eqb_neq in E0.
    destruct (wrap (schedule_bits F) (fst (schedule_at fb time) - 1) =? 0)%N eqn:E1.
    + apply N.eqb_eq in E1. rewrite E1.
      destruct (snd (schedule_at fb time)); simpl;
        (apply consistent_insert; [exact Hfb|]; split; [congruence | lia]).
    + apply N.eqb_neq in E1. simpl.
      apply consistent_insert; [exact Hfb|].
      split; [lia|]. intros _. apply Hc. lia.
Qed.

Lemma removeRenderingTime_below F n w fb (time : N) :
  counts_below n fb ->
  counts_below n (snd (removeRenderingTime F time (w, fb))).
Proof.
  intros Hfb. unfold removeRenderingTime.
  destruct (negb (scheduling_compiled F)); [exact Hfb|].
  pose proof (schedule_at_below n fb time Hfb) as Hc.
  assert (Hle : (wrap (schedule_bits F) (fst (schedule_at fb time) - 1) <= n)%N).
  { unfold wrap. etransitivity; [apply N.Div0.mod_le|]. lia. }
  destruct (fst (schedule_at fb time) =? 0)%N.
  - simpl. destruct (schedule_at fb time) as [c h]. simpl in *.
    apply below_insert; assumption.
  - destruct (wrap (schedule_bits F) (fst (schedule_at fb time) - 1) =? 0)%N;
      [destruct (snd (schedule_at fb time))|]; simpl;
      apply below_insert; assumption.
Qed.

(** Operations other than [schedulePainting] and [removeRenderingTime]
    leave the table alone. *)
Lemma step_schedules F isValid o s s' :
  (forall t, o <> op_schedulePainting t) ->
  (forall t, o <> op_removeRenderingTime t) ->
  step F isValid o s = Returns s' ->
  m_schedules (snd s') = m_schedules (snd s).
Proof.
  intros H1 H2 H. destruct o; simpl in H;
    try (inversion H; subst; simpl;
         first [reflexivity | apply update_schedules | apply callback_schedules]).
  - apply (preserves_exec schedules_of _ _ _ (resize_schedules isValid size) H).
  - apply (preserves_exec schedules_of _ _ _ bind_schedules H).
  - apply (preserves_exec schedules_of _ _ _ (release_schedules F) H).
  - apply (preserves_exec schedules_of _ _ _ draw_schedules H).
  - apply (preserves_exec schedules_of _ _ _ (draw_dest_schedules dest) H).
  - apply (preserves_exec schedules_of _ _ _ (draw_dest_src_schedules dest src) H).
  - apply (preserves_exec schedules_of _ _ _ getSize_schedules H).
  - destruct (H1 time); reflexivity.
  - destruct (H2 time); reflexivity.
Qed.

(** One operation keeps the invariant, as long as the count it
    increments is not at the top of its range. *)
Lemma step_consistent F isValid n o s s' :
  schedules_consistent (snd s) ->
  counts_below n (snd s) ->
  (n + 1 < 2 ^ schedule_bits F)%N ->
  step F isValid o s = Returns s' ->
  schedules_consistent (snd s') /\ counts_below (n + 1) (snd s').
Proof.
  intros Hc Hb Hn H.
  assert (Hother : (forall t, o <> op_schedulePainting t) ->
                   (forall t, o <> op_removeRenderingTime t) ->
                   schedules_consistent (snd s') /\ counts_below (n + 1) (snd s')).
  { intros H1 H2. pose proof (step_schedules F isValid o s s' H1 H2 H) as E.
    split.
    - eapply consistent_same_schedules; eauto.
    - eapply below_same_schedules; [exact E|].
      eapply below_weaken; [|exact Hb]. lia. }
  destruct o; try (apply Hother; intros; discriminate).
  - simpl in H. inversion H; subst. destruct s as [w fb]. simpl in *. split.
    + apply schedulePainting_consistent; [exact Hc|].
      pose proof (schedule_at_below n fb time Hb). lia.
    + apply schedulePainting_below, Hb.
  - simpl in H. inversion H; subst. destruct s as [w fb]. simpl in *. split.
    + apply removeRenderingTime_consistent, Hc.
    + eapply below_weaken; [|apply removeRenderingTime_below, Hb]. lia.
Qed.

Lemma subscribes_true F time fb :
  subscribes F time fb = true <->
  SCHEDULE_PAINTING F <> 0 /\ m_schedulePaintingEnabled fb = true /\
  time <> 0%N /\ Z.of_N time <> FORCE_UPDATE F /\
  MIN_TIME_UPDATE F < Z.of_N time.
Proof.
  unfold subscribes.
  rewrite !andb_true_iff, !negb_true_iff, scheduling_true,
    N.eqb_neq, Z.eqb_neq, Z.leb_gt.
  tauto.
Qed.

(** A call that does not reach the table leaves it as it is. *)
Lemma schedulePainting_not_subscribed F time w fb :
  subscribes F time fb = false ->
  m_schedules (snd (schedulePainting F time (w, fb))) = m_schedules fb.
Proof.
  unfold subscribes, scheduling, schedulePainting. intros H.
  destruct (scheduling_compiled F); [|reflexivity].
  destruct (m_schedulePaintingEnabled fb); [|reflexivity]. simpl in *.
  destruct (time =? 0)%N; [reflexivity|].
  destruct (Z.of_N time =? FORCE_UPDATE F); [reflexivity|].
  destruct (Z.of_N time <=? MIN_TIME_UPDATE F); [|discriminate].
  simpl. apply update_schedules.
Qed.

Lemma step_in_range F isValid o s s' :
  schedules_consistent (snd s) ->
  in_range F o s ->
  step F isValid o s = Returns s' ->
  schedules_consistent (snd s').
Proof.
  intros Hc Hr H.
  assert (Hother : (forall t, o <> op_schedulePainting t) ->
                   (forall t, o <> op_removeRenderingTime t) ->
                   schedules_consistent (snd s')).
  { intros H1 H2. pose proof (step_schedules F isValid o s s' H1 H2 H) as E.
    eapply consistent_same_schedules; eauto. }
  destruct o; try (apply Hother; intros; discriminate).
  - simpl in H, Hr. inversion H; subst. destruct s as [w fb]. simpl in *.
    destruct (subscribes F time fb) eqn:Es.
    + apply schedulePainting_consistent; [exact Hc | exact (Hr eq_refl)].
    + eapply consistent_same_schedules; [|exact Hc].
      apply schedulePainting_not_subscribed, Es.
  - simpl in H. inversion H; subst. destruct s as [w fb]. simpl in *.
    apply removeRenderingTime_consistent, Hc.
Qed.

Lemma run_in_range F isValid ops : forall s s',
  schedules_consistent (snd s) ->
  counts_in_range F isValid ops s ->
  run F isValid ops s = Returns s' ->
  schedules_consistent (snd s').
Proof.
  induction ops as [|o ops IH]; intros s s' Hc Hr H; simpl in H, Hr.
  - inversion H; subst. exact Hc.
  - destruct Hr as [Hr1 Hr2].
    destruct (step F isValid o s) as [s1|e] eqn:E; [|discriminate].
    apply (IH s1 s'); [|exact Hr2 | exact H].
    apply (step_in_range F isValid o s s1 Hc Hr1 E).
Qed.

(** C6, as the code has it. Starting from a new instance, whose table
    is empty, or from any state in which every entry holds a handle
    exactly when its count is positive: after every sequence of
    operations in which no [schedulePainting] increments a reference
    count that is at the top of its range, every entry of the table
    holds a task handle if and only if its reference count is
    positive. *)
Theorem handle_iff_count_positive F isValid ops s s' :
  m_schedules (snd s) = ∅ \/ schedules_consistent (snd s) ->
  counts_in_range F isValid ops s ->
  run F isValid ops s = Returns s' ->
  forall (t : N) c h,
    m_schedules (snd s') !! t = Some (c, h) -> (h <> None <-> (0 < c)%N).
Proof.
  intros Hstart Hr H.
  apply (run_in_range F isValid ops s s'); try assumption.
  destruct Hstart as [Hempty|Hc]; [|exact Hc].
  intros t c h. rewrite Hempty, lookup_empty. discriminate.
Qed.

Lemma handle_iff_count_positive_witness :
  m_schedules (snd (schedulePainting sample_features 100 (sample_world, sample_fb)))
    !! 100%N = Some (1%N, Some 0%nat) /\
  (Some 0%nat <> None <-> (0 < 1)%N).
Proof.
  split; [reflexivity|].
  apply (handle_iff_count_positive sample_features sample_isValid
           [op_schedulePainting 100] (sample_world, sample_fb)
           (schedulePainting sample_features 100 (sample_world, sample_fb)))
    with (t := 100%N).
  - left. reflexivity.
  - simpl. split; [|exact I]. intros _. vm_compute. reflexivity.
  - reflexivity.
  - reflexivity.
Defined.

(** A run from the empty table that is shorter than the range of a
    reference count never takes a count to the top. *)
Lemma step_below F isValid n o s s' :
  counts_below n (snd s) ->
  step F isValid o s = Returns s' ->
  counts_below (n + 1) (snd s').
Proof.
  intros Hb H.
  assert (Hother : (forall t, o <> op_schedulePainting t) ->
                   (forall t, o <> op_removeRenderingTime t) ->
                   counts_below (n + 1) (snd s')).
  { intros H1 H2. pose proof (step_schedules F isValid o s s' H1 H2 H) as E.
    eapply below_same_schedules; [exact E|].
    eapply below_weaken; [|exact Hb]. lia. }
  destruct o; try (apply Hother; intros; discriminate).
  - simpl in H. inversion H; subst. destruct s as [w fb]. simpl in *.
    apply schedulePainting_below, Hb.
  - simpl in H. inversion H; subst. destruct s as [w fb]. simpl in *.
    eapply below_weaken; [|apply removeRenderingTime_below, Hb]. lia.
Qed.

Lemma short_run_in_range F isValid ops : forall n s,
  counts_below n (snd s) ->
  (n + N.of_nat (length ops) < 2 ^ schedule_bits F)%N ->
  counts_in_range F isValid ops s.
Proof.
  induction ops as [|o ops IH]; intros n s Hb Hn; simpl; [exact I|].
  simpl length in Hn. split.
  - destruct o; simpl; try exact I. intros _.
    pose proof (schedule_at_below n (snd s) time Hb). lia.
  - destruct (step F isValid o s) as [s1|e] eqn:E; [|exact I].
    apply (IH (n + 1)%N); [|lia].
    apply (step_below F isValid n o s s1 Hb E).
Qed.

(** ** Where the count wraps *)

Lemma subscribes_kept F d time w fb :
  subscribes F d (snd (schedulePainting F time (w, fb))) = subscribes F d fb.
Proof.
  assert (H : m_schedulePaintingEnabled (snd (schedulePainting F time (w, fb)))
              = m_schedulePaintingEnabled fb).
  { unfold schedulePainting.
    destruct (negb (scheduling_compiled F) || negb (m_schedulePaintingEnabled fb));
      [reflexivity|].
    destruct (time =? 0)%N; [reflexivity|].
    destruct (Z.of_N time =? FORCE_UPDATE F); [reflexivity|].
    destruct (Z.of_N time <=? MIN_TIME_UPDATE F).
    - simpl. unfold update. destruct (scheduling F fb); reflexivity.
    - destruct (fst (schedule_at fb time) =? 0)%N; reflexivity. }
  unfold subscribes, scheduling. rewrite H. reflexivity.
Qed.

(** Further subscriptions to a duration that has its event count up,
    modulo the range of the count, and keep the handle. *)
Lemma run_more_subscriptions F isValid d h : forall n s c,
  subscribes F d (snd s) = true ->
  schedule_at (snd s) d = (c, Some h) ->
  (1 <= c)%N -> (c < 2 ^ schedule_bits F)%N ->
  (c + N.of_nat n <= 2 ^ schedule_bits F)%N ->
  exists s',
    run F isValid (repeat (op_schedulePainting d) n) s = Returns s' /\
    schedule_at (snd s') d = (wrap (schedule_bits F) (c + N.of_nat n), Some h).
Proof.
  induction n as [|n IH]; intros [w fb] c Hs He Hc1 Hc2 Hn;
    cbn [repeat run step fst snd] in *.
  - exists (w, fb). split; [reflexivity|].
    rewrite N.add_0_r, wrap_small by assumption. exact He.
  - pose proof Hs as Hs'. apply subscribes_true in Hs'.
    destruct Hs' as (Hcomp & Hen & H0 & Hf & Hm).
    assert (Hstep : schedulePainting F d (w, fb) =
                    (w, set_schedules
                          (<[d := (wrap (schedule_bits F) (c + 1), Some h)]>
                             (m_schedules fb)) fb)).
    { rewrite schedulePainting_again; try assumption.
      - rewrite He. reflexivity.
      - rewrite He. simpl. lia. }
    rewrite Hstep.
    destruct (N.eq_dec (c + 1)%N (2 ^ schedule_bits F)%N) as [Etop|Etop].
    + assert (n = 0%nat) by lia. subst n. cbn [repeat run].
      eexists. split; [reflexivity|]. cbn [snd].
      rewrite schedule_at_insert. reflexivity.
    + assert (Hlt : (c + 1 < 2 ^ schedule_bits F)%N) by lia.
      rewrite wrap_small by exact Hlt.
      destruct (IH (w, set_schedules (<[d := ((c + 1)%N, Some h)]> (m_schedules fb)) fb)
                  (c + 1)%N) as (s' & Er & Ee).
      * pose proof (subscribes_kept F d d w fb) as K.
        rewrite Hstep in K. simpl in K.
        rewrite wrap_small in K by exact Hlt. simpl. rewrite K. exact Hs.
      * simpl. apply schedule_at_insert.
      * lia.
      * exact Hlt.
      * lia.
      * exists s'. split; [exact Er|]. rewrite Ee.
        replace (c + 1 + N.of_nat n)%N with (c + N.of_nat (S n))%N by lia.
        reflexivity.
Qed.

(** Whatever the width of the count: as many subscriptions to one
    duration as the count has values, and nothing else, take it back to
    zero while the handle of the event stays in the entry. *)
Lemma count_wraps F isValid d s :
  subscribes F d (snd s) = true ->
  fst (schedule_at (snd s) d) = 0%N ->
  exists s',
    run F isValid
        (repeat (op_schedulePainting d) (N.to_nat (2 ^ schedule_bits F))) s
    = Returns s' /\
    m_schedules (snd s') !! d = Some (0%N, Some (length (events (fst s)))).
Proof.
  intros Hs Hz. destruct s as [w fb]. simpl in *.
  pose proof Hs as Hs'. apply subscribes_true in Hs'.
  destruct Hs' as (Hcomp & Hen & H0 & Hf & Hm).
  assert (Hpos : (0 < 2 ^ schedule_bits F)%N)
    by (apply N.neq_0_lt_0, N.pow_nonzero; discriminate).
  assert (Hlookup : forall fb' h,
            schedule_at fb' d = (0%N, Some h) ->
            m_schedules fb' !! d = Some (0%N, Some h)).
  { intros fb' h. unfold schedule_at.
    destruct (m_schedules fb' !! d) as [e|]; simpl; congruence. }
  replace (N.to_nat (2 ^ schedule_bits F))
    with (S (N.to_nat (2 ^ schedule_bits F - 1))) by lia.
  cbn [repeat run step]. rewrite schedulePainting_first by assumption.
  destruct (N.eq_dec (2 ^ schedule_bits F)%N 1%N) as [E1|E1].
  - rewrite E1. cbn [N.sub Pos.pred_N N.to_nat repeat run].
    eexists. split; [reflexivity|]. cbn [fst snd].
    apply Hlookup. rewrite schedule_at_insert.
    unfold wrap. rewrite E1. reflexivity.
  - rewrite wrap_small by lia.
    destruct (run_more_subscriptions F isValid d (length (events w))
                (N.to_nat (2 ^ schedule_bits F - 1))
                (set_events (events w ++ [mkEvent d false]) w,
                 set_schedules (<[d := (1%N, Some (length (events w)))]>
                                  (m_schedules fb)) fb) 1%N)
      as (s' & Er & Ee).
    + pose proof (subscribes_kept F d d w fb) as K.
      rewrite schedulePainting_first in K by assumption. simpl in K.
      rewrite wrap_small in K by lia. simpl. rewrite K. exact Hs.
    + simpl. apply schedule_at_insert.
    + lia.
    + lia.
    + lia.
    + exists s'. split; [exact Er|]. apply Hlookup. rewrite Ee.
      f_equal. unfold wrap.
      replace (1 + N.of_nat (N.to_nat (2 ^ schedule_bits F - 1)))%N
        with (2 ^ schedule_bits F)%N by lia.
      apply N.Div0.mod_same.
Qed.

(** C6 as stated fails once a count wraps. With a 16-bit count, 65536
    subscriptions to the duration 100 on a new instance return and leave
    the entry with a count of zero and the handle of its event, which is
    still registered and not cancelled. *)
Lemma reference_count_wraps :
  exists s',
    run sample_features sample_isValid
        (repeat (op_schedulePainting 100) (N.to_nat (2 ^ 16)))
        (sample_world, sample_fb) = Returns s' /\
    m_schedules (snd s') !! 100%N = Some (0%N, Some 0%nat) /\
    ~ (Some 0%nat <> None <-> (0 < 0)%N).
Proof.
  destruct (count_wraps sample_features sample_isValid 100
              (sample_world, sample_fb)) as (s' & Er & Ee);
    [reflexivity | reflexivity |].
  exists s'. split; [exact Er|]. split; [exact Ee|].
  intros [H _]. assert (0 < 0)%N by (apply H; discriminate). lia.
Qed.

(** ** The internal bind and release steps *)

Lemma internalBind_real w fb :
  m_fbo fb <> 0%N -> boundFbo w <> m_fbo fb ->
  internalBind (w, fb) =
  Returns (tt, (set_boundFbo (m_fbo fb) (log (glBindFramebuffer (m_fbo fb)) w),
                set_prevBoundFbo (boundFbo w) fb)).
Proof.
  intros Hf Hb. apply N.eqb_neq in Hf, Hb.
  unfold_m. simpl. rewrite Hf. simpl. rewrite Hb. reflexivity.
Qed.

Lemma internalBind_self w fb :
  m_fbo fb <> 0%N -> boundFbo w = m_fbo fb ->
  internalBind (w, fb) = Aborts AssertionFailure.
Proof.
  intros Hf Hb. apply N.eqb_neq in Hf. apply N.eqb_eq in Hb.
  unfold_m. simpl. rewrite Hf. simpl. rewrite Hb. reflexivity.
Qed.

Lemma internalRelease_real w fb :
  m_fbo fb <> 0%N -> boundFbo w = m_fbo fb ->
  internalRelease (w, fb) =
  Returns (tt, (set_boundFbo (m_prevBoundFbo fb)
                  (log (glBindFramebuffer (m_prevBoundFbo fb)) w), fb)).
Proof.
  intros Hf Hb. apply N.eqb_neq in Hf. apply N.eqb_eq in Hb.
  unfold_m. simpl. rewrite Hf. simpl. rewrite Hb. reflexivity.
Qed.

Lemma internalRelease_mismatch w fb :
  m_fbo fb <> 0%N -> boundFbo w <> m_fbo fb ->
  internalRelease (w, fb) = Aborts AssertionFailure.
Proof.
  intros Hf Hb. apply N.eqb_neq in Hf, Hb.
  unfold_m. simpl. rewrite Hf. simpl. rewrite Hb. reflexivity.
Qed.

(** C9, as the code has it. On an instance that owns a GPU target the
    assertion of the internal bind step fails exactly when the global
    identifier already is this instance's own handle. When it records
    any other handle, zero or not, the bind goes through: the handle
    found is kept in [m_prevBoundFbo] and the global identifier, a single
    value, now names this instance. *)
Theorem internalBind_asserts_self_only w fb :
  m_fbo fb <> 0%N ->
  (internalBind (w, fb) = Aborts AssertionFailure <-> boundFbo w = m_fbo fb) /\
  (boundFbo w <> m_fbo fb ->
   exists s', internalBind (w, fb) = Returns (tt, s') /\
              boundFbo (fst s') = m_fbo fb /\
              m_prevBoundFbo (snd s') = boundFbo w /\
              m_fbo (snd s') = m_fbo fb).
Proof.
  intros Hf. split.
  - split.
    + intros H. destruct (N.eq_dec (boundFbo w) (m_fbo fb)) as [E|E]; [exact E|].
      rewrite internalBind_real in H by assumption. discriminate.
    + apply internalBind_self, Hf.
  - intros Hb. rewrite internalBind_real by assumption.
    eexists. split; [reflexivity|]. simpl. auto.
Qed.

Lemma internalBind_asserts_self_only_witness :
  exists s', internalBind (world_two_bound, fb_one) = Returns (tt, s') /\
             boundFbo (fst s') = m_fbo fb_one /\
             m_prevBoundFbo (snd s') = boundFbo world_two_bound /\
             m_fbo (snd s') = m_fbo fb_one.
Proof.
  apply (internalBind_asserts_self_only world_two_bound fb_one);
    vm_compute; congruence.
Defined.

(** C9 as stated fails: while the global identifier records the nonzero
    handle 2 of another instance, [bind] on the instance with handle 1
    returns without any assertion failing, and the global identifier
    moves on to 1. *)
Lemma bind_over_other_instance_returns :
  boundFbo world_two_bound = 2%N /\
  m_fbo fb_one = 1%N /\
  (exists s', exec bind (world_two_bound, fb_one) = Returns s' /\
              boundFbo (fst s') = 1%N /\
              m_prevBoundFbo (snd s') = 2%N) /\
  exec bind (world_two_bound, fb_one) <> Aborts AssertionFailure.
Proof.
  repeat split.
  - eexists. split; [vm_compute; reflexivity|]. split; reflexivity.
  - vm_compute. discriminate.
Qed.

(** ** resize *)

Lemma same_size_true p size :
  same_size p size = true -> tex_size <$> p = Some size.
Proof.
  destruct p as [t|]; simpl; [|discriminate].
  intros H. apply Size_eqb_eq in H. rewrite H. reflexivity.
Qed.

Lemma resize_invalid isValid size s :
  isValid size = false -> resize isValid size s = Aborts AssertionFailure.
Proof. intros H. unfold_m. rewrite H. reflexivity. Qed.

Lemma resize_same isValid size w fb :
  isValid size = true -> same_size (m_texture fb) size = true ->
  resize isValid size (w, fb) = Returns (tt, (w, fb)).
Proof. intros Hv Hs. unfold_m. rewrite Hv. simpl. rewrite Hs. reflexivity. Qed.

(** With a GPU target that is currently bound, a resize to a new size
    runs into the assertion of the internal bind step. *)
Lemma resize_while_bound isValid size w fb :
  isValid size = true -> same_size (m_texture fb) size = false ->
  m_fbo fb <> 0%N -> boundFbo w = m_fbo fb ->
  resize isValid size (w, fb) = Aborts AssertionFailure.
Proof.
  intros Hv Hs Hf Hb. apply N.eqb_neq in Hf. apply N.eqb_eq in Hb.
  destruct w, fb. unfold_m. simpl in *.
  repeat (progress (simpl; rewrite ?Hv, ?Hs, ?Hf, ?Hb)). reflexivity.
Qed.

Lemma resize_real isValid size w fb :
  isValid size = true -> same_size (m_texture fb) size = false ->
  m_fbo fb <> 0%N -> boundFbo w <> m_fbo fb -> fbo_complete w = true ->
  exists s', resize isValid size (w, fb) = Returns (tt, s') /\
             resized size (w, fb) s' /\
             m_screenBackup (snd s') = m_screenBackup fb /\
             m_prevBoundFbo (snd s') = boundFbo w.
Proof.
  intros Hv Hs Hf Hb Hc. apply N.eqb_neq in Hf, Hb.
  destruct w, fb. unfold_m. simpl in *.
  repeat (progress (simpl; rewrite ?Hv, ?Hs, ?Hf, ?Hb, ?Hc, ?N.eqb_refl)).
  eexists. split; [reflexivity|]. unfold resized. simpl. auto 10.
Qed.

Lemma resize_incomplete isValid size w fb :
  isValid size = true -> same_size (m_texture fb) size = false ->
  m_fbo fb <> 0%N -> boundFbo w <> m_fbo fb -> fbo_complete w = false ->
  resize isValid size (w, fb) = Aborts FatalError.
Proof.
  intros Hv Hs Hf Hb Hc. apply N.eqb_neq in Hf, Hb.
  destruct w, fb. unfold_m. simpl in *.
  repeat (progress (simpl; rewrite ?Hv, ?Hs, ?Hf, ?Hb, ?Hc)). reflexivity.
Qed.

Lemma resize_backup isValid size w fb :
  isValid size = true -> same_size (m_texture fb) size = false ->
  m_fbo fb = 0%N ->
  exists s', resize isValid size (w, fb) = Returns (tt, s') /\
             resized size (w, fb) s' /\
             m_prevBoundFbo (snd s') = m_prevBoundFbo fb /\
             (m_backuping fb = true ->
              tex_size <$> m_screenBackup (snd s') = Some size).
Proof.
  intros Hv Hs Hf.
  destruct w, fb. unfold_m. simpl in *. subst.
  rewrite Hv. simpl. rewrite Hs. simpl.
  destruct m_backuping0; simpl;
    (eexists; split; [reflexivity|]; unfold resized; simpl; auto 10).
  repeat split; auto. discriminate.
Qed.

(** A resize to a valid size returns, on an instance that is not bound
    and with a driver that accepts the attachment. *)
Lemma resize_returns isValid size w fb :
  isValid size = true ->
  (m_fbo fb <> 0%N -> boundFbo w <> m_fbo fb) ->
  fbo_complete w = true ->
  exists s', exec (resize isValid size) (w, fb) = Returns s' /\
             resized size (w, fb) s'.
Proof.
  intros Hv Hb Hc. unfold exec.
  destruct (same_size (m_texture fb) size) eqn:Hs.
  - rewrite resize_same by assumption.
    eexists. split; [reflexivity|]. unfold resized. simpl.
    auto using same_size_true.
  - destruct (N.eq_dec (m_fbo fb) 0%N) as [Hf|Hf].
    + destruct (resize_backup isValid size w fb Hv Hs Hf) as (s' & E & R & _).
      rewrite E. eauto.
    + destruct (resize_real isValid size w fb Hv Hs Hf (Hb Hf) Hc)
        as (s' & E & R & _).
      rewrite E. eauto.
Qed.

Lemma last_cons {A} (l : list A) : forall x d,
  List.last (x :: l) d = List.last l x.
Proof.
  induction l as [|y l IH]; intros x d; [reflexivity|].
  change (List.last (x :: y :: l) d) with (List.last (y :: l) d).
  rewrite !IH. reflexivity.
Qed.

Lemma run_resizes F isValid sizes : forall w fb size0,
  isValid size0 = true ->
  Forall (fun size => isValid size = true) sizes ->
  (m_fbo fb <> 0%N -> boundFbo w <> m_fbo fb) ->
  fbo_complete w = true ->
  exists s0 s',
    exec (resize isValid size0) (w, fb) = Returns s0 /\
    run F isValid (map op_resize sizes) s0 = Returns s' /\
    tex_size <$> m_texture (snd s') = Some (List.last sizes size0).
Proof.
  induction sizes as [|size sizes IH]; intros w fb size0 Hv0 Hv Hb Hc.
  - destruct (resize_returns isValid size0 w fb Hv0 Hb Hc) as (s0 & E & R).
    exists s0, s0. simpl. split; [exact E|]. split; [reflexivity|]. apply R.
  - inversion Hv as [|? ? Hv1 Hv']; subst.
    destruct (resize_returns isValid size0 w fb Hv0 Hb Hc)
      as ([w0 fb0] & E & (_ & Eb & Ef & Ec & _)).
    simpl in Eb, Ef, Ec.
    destruct (IH w0 fb0 size Hv1 Hv') as (s1 & s' & E1 & Er & El).
    + rewrite Ef, Eb. exact Hb.
    + rewrite Ec. exact Hc.
    + exists (w0, fb0), s'. split; [exact E|]. split.
      * simpl. rewrite E1. exact Er.
      * rewrite El, last_cons. reflexivity.
Qed.

(** C4. On an instance that is not bound, with a driver that accepts the
    attachment, for valid sizes [S1 <> S2]: [resize(S1)] followed by
    [resize(S2)] returns and leaves a new backing texture of size [S2];
    a [resize(S2)] that follows a [resize(S2)] returns the very same
    state, world and instance; and any sequence of resizes to valid sizes
    returns and leaves a backing texture of the size passed last. *)
Theorem resize_reallocates_to_last_size F isValid w fb (S1 S2 : Size) :
  isValid S1 = true ->
  isValid S2 = true ->
  S1 <> S2 ->
  (m_fbo fb <> 0%N -> boundFbo w <> m_fbo fb) ->
  fbo_complete w = true ->
  (exists s1 s2,
     exec (resize isValid S1) (w, fb) = Returns s1 /\
     exec (resize isValid S2) s1 = Returns s2 /\
     tex_size <$> m_texture (snd s1) = Some S1 /\
     tex_size <$> m_texture (snd s2) = Some S2 /\
     m_texture (snd s2) <> m_texture (snd s1) /\
     resize isValid S2 s2 = Returns (tt, s2)) /\
  (exists s,
     exec (resize isValid S2) (w, fb) = Returns s /\
     resize isValid S2 s = Returns (tt, s)) /\
  (forall size0 sizes,
     isValid size0 = true ->
     Forall (fun size => isValid size = true) sizes ->
     exists s',
       run F isValid (map op_resize (size0 :: sizes)) (w, fb) = Returns s' /\
       tex_size <$> m_texture (snd s') = Some (List.last sizes size0)).
Proof.
  intros Hv1 Hv2 Hne Hb Hc.
  assert (Hidem : forall w' fb' s,
            exec (resize isValid S2) (w', fb') = Returns s ->
            resized S2 (w', fb') s ->
            resize isValid S2 s = Returns (tt, s)).
  { intros w' fb' [w2 fb2] _ (Et2 & _). simpl in Et2.
    apply resize_same; [exact Hv2|].
    destruct (m_texture fb2) as [t|]; simpl in *; [|discriminate].
    inversion Et2. apply Size_eqb_refl. }
  split; [|split].
  - destruct (resize_returns isValid S1 w fb Hv1 Hb Hc)
      as ([w1 fb1] & E1 & (Et1 & Eb & Ef & Ec & _)).
    simpl in Et1, Eb, Ef, Ec.
    destruct (resize_returns isValid S2 w1 fb1 Hv2) as ([w2 fb2] & E2 & R2).
    + rewrite Ef, Eb. exact Hb.
    + rewrite Ec. exact Hc.
    + exists (w1, fb1), (w2, fb2).
      pose proof (Hidem _ _ _ E2 R2) as Hnoop.
      destruct R2 as (Et2 & _). simpl in Et2.
      repeat split; try assumption.
      simpl. intros E. rewrite E, Et1 in Et2. congruence.
  - destruct (resize_returns isValid S2 w fb Hv2 Hb Hc) as (s & E & R).
    exists s. split; [exact E|]. apply (Hidem _ _ _ E R).
  - intros size0 sizes Hv0 Hvs.
    destruct (run_resizes F isValid sizes w fb size0 Hv0 Hvs Hb Hc)
      as (s0 & s' & E0 & Er & El).
    exists s'. split; [|exact El].
    simpl. rewrite E0. exact Er.
Qed.

Lemma resize_reallocates_to_last_size_witness :
  exists s',
    run sample_features sample_isValid
        (map op_resize [mkSize 64 64; mkSize 32 32; mkSize 128 96])
        (sample_world, sample_fb) = Returns s' /\
    tex_size <$> m_texture (snd s') = Some (mkSize 128 96).
Proof.
  apply (resize_reallocates_to_last_size sample_features sample_isValid
           sample_world sample_fb (mkSize 64 64) (mkSize 32 32));
    try (vm_compute; congruence).
  repeat constructor.
Defined.

(** ** Between bind and release *)

Lemma getSize_binding : preserves binding_of getSize.
Proof. unfold getSize. frame. Qed.

Lemma draw_binding : preserves binding_of draw.
Proof. unfold draw, emit. frame; reflexivity. Qed.

Lemma draw_dest_binding dest : preserves binding_of (draw_dest dest).
Proof. unfold draw_dest, emit. frame; reflexivity. Qed.

Lemma draw_dest_src_binding dest src :
  preserves binding_of (draw_dest_src dest src).
Proof. unfold draw_dest_src, emit. frame; reflexivity. Qed.

Lemma update_binding F w fb : binding_of (w, update F fb) = binding_of (w, fb).
Proof. unfold update. destruct (scheduling F fb); reflexivity. Qed.

Lemma callback_binding F w fb : binding_of (w, callback F fb) = binding_of (w, fb).
Proof.
  unfold callback. destruct (FORCE_ANIMATED_RENDERING F =? 1);
    [reflexivity | apply update_binding].
Qed.

Lemma schedulePainting_binding F time s :
  binding_of (schedulePainting F time s) = binding_of s.
Proof.
  destruct s as [w fb]. unfold schedulePainting.
  destruct (negb (scheduling_compiled F) || negb (m_schedulePaintingEnabled fb));
    [reflexivity|].
  destruct (time =? 0)%N; [reflexivity|].
  destruct (Z.of_N time =? FORCE_UPDATE F); [reflexivity|].
  destruct (Z.of_N time <=? MIN_TIME_UPDATE F); [apply update_binding|].
  destruct (fst (schedule_at fb time) =? 0)%N; reflexivity.
Qed.

Lemma removeRenderingTime_binding F time s :
  binding_of (removeRenderingTime F time s) = binding_of s.
Proof.
  destruct s as [w fb]. unfold removeRenderingTime.
  destruct (negb (scheduling_compiled F)); [reflexivity|].
  destruct (fst (schedule_at fb time) =? 0)%N; [reflexivity|].
  destruct (wrap (schedule_bits F) (fst (schedule_at fb time) - 1) =? 0)%N;
    [destruct (snd (schedule_at fb time))|]; reflexivity.
Qed.

Lemma bound_as_binding f g s s' :
  binding_of s' = binding_of s -> bound_as f g s -> bound_as f g s'.
Proof.
  unfold binding_of, bound_as. intros E H. inversion E as [[E1 E2 E3 E4]].
  rewrite E1, E2, E3, E4. exact H.
Qed.

Lemma resize_bound_as isValid f g size s s' :
  bound_as f g s -> exec (resize isValid size) s = Returns s' ->
  bound_as f g s'.
Proof.
  intros Hb H. destruct s as [w fb]. unfold exec in H.
  destruct (isValid size) eqn:Hv;
    [|rewrite resize_invalid in H by assumption; discriminate].
  destruct (same_size (m_texture fb) size) eqn:Hs.
  { rewrite resize_same in H by assumption. inversion H; subst. exact Hb. }
  destruct Hb as (Hf & Ht & Hbound & Hprev). simpl in *.
  destruct (N.eq_dec f 0%N) as [Hz|Hnz].
  - assert (Hz' : m_fbo fb = 0%N) by congruence.
    destruct (resize_backup isValid size w fb Hv Hs Hz')
      as (s1 & E & (Et & Eb & Ef & _) & Ep & _).
    rewrite E in H. inversion H; subst s1. simpl in *.
    repeat split.
    + congruence.
    + intros En. rewrite En in Et. discriminate.
    + rewrite Eb. exact Hbound.
    + intros C. contradiction.
  - assert (Hb' : boundFbo w = m_fbo fb).
    { rewrite Hbound, Hf. apply N.eqb_neq in Hnz. rewrite Hnz. reflexivity. }
    rewrite resize_while_bound in H; [discriminate | | | | ]; try assumption.
    rewrite Hf. exact Hnz.
Qed.

Lemma inner_step F isValid f g o s s' :
  inner o -> bound_as f g s -> step F isValid o s = Returns s' ->
  bound_as f g s'.
Proof.
  intros Hi Hb H. destruct o; simpl in H; try contradiction.
  - eapply resize_bound_as; eauto.
  - eapply bound_as_binding; [|exact Hb].
    apply (preserves_exec binding_of _ _ _ draw_binding H).
  - eapply bound_as_binding; [|exact Hb].
    apply (preserves_exec binding_of _ _ _ (draw_dest_binding dest) H).
  - eapply bound_as_binding; [|exact Hb].
    apply (preserves_exec binding_of _ _ _ (draw_dest_src_binding dest src) H).
  - eapply bound_as_binding; [|exact Hb].
    apply (preserves_exec binding_of _ _ _ getSize_binding H).
  - inversion H; subst. exact Hb.
  - inversion H; subst. eapply bound_as_binding; [|exact Hb].
    destruct s. apply update_binding.
  - inversion H; subst. eapply bound_as_binding; [|exact Hb].
    apply schedulePainting_binding.
  - inversion H; subst. eapply bound_as_binding; [|exact Hb].
    apply removeRenderingTime_binding.
  - inversion H; subst. eapply bound_as_binding; [|exact Hb].
    destruct s. apply callback_binding.
Qed.

Lemma inner_run F isValid f g ops : forall s s',
  Forall inner ops -> bound_as f g s -> run F isValid ops s = Returns s' ->
  bound_as f g s'.
Proof.
  induction ops as [|o ops IH]; intros s s' Hi Hb H; simpl in H.
  - inversion H; subst. exact Hb.
  - inversion Hi as [|? ? Ho Hops]; subst.
    destruct (step F isValid o s) as [s1|e] eqn:E; [|discriminate].
    apply (IH s1 s' Hops); [|exact H].
    eapply inner_step; eauto.
Qed.

(** [bind] returns on an instance that has been resized, is not bound
    yet and, where the screen is backed up, has its backup texture. *)
Lemma bind_returns w fb :
  m_texture fb <> None ->
  (m_fbo fb <> 0%N -> boundFbo w <> m_fbo fb) ->
  (m_fbo fb = 0%N -> m_backuping fb = true -> m_screenBackup fb <> None) ->
  exists s1, exec bind (w, fb) = Returns s1 /\
             bound_as (m_fbo fb) (boundFbo w) s1.
Proof.
  intros Ht Hb Hk. unfold bound_as.
  destruct w, fb. simpl in *.
  destruct m_texture0 as [t|]; [clear Ht | contradiction].
  destruct (m_fbo0 =? 0)%N eqn:Ef.
  - apply N.eqb_eq in Ef. subst m_fbo0.
    destruct m_backuping0.
    + destruct m_screenBackup0 as [b|]; [|exfalso; apply Hk; reflexivity].
      eexists. split; [unfold_m; cbn -[N.eqb]; reflexivity|]. simpl.
      repeat split; congruence.
    + eexists. split; [unfold_m; cbn -[N.eqb]; reflexivity|]. simpl.
      repeat split; congruence.
  - pose proof Ef as Ef'. apply N.eqb_neq in Ef'. specialize (Hb Ef').
    apply N.eqb_neq in Hb.
    eexists. split.
    + unfold_m. cbn -[N.eqb]. rewrite Ef. cbn -[N.eqb]. rewrite Hb. cbn -[N.eqb]. reflexivity.
    + cbn -[N.eqb]. repeat split; congruence.
Qed.

(** [release] returns on a bound instance and puts the identifier found
    by [bind] back. *)
Lemma release_returns F f g s :
  bound_as f g s ->
  exists s3, exec (release F) s = Returns s3 /\ boundFbo (fst s3) = g.
Proof.
  intros (Hf & Ht & Hb & Hp). destruct s as [w fb].
  destruct w, fb. simpl in *. subst m_fbo0.
  destruct m_texture0 as [t|]; [clear Ht | contradiction].
  destruct (f =? 0)%N eqn:Ef.
  - destruct m_backuping0, (scheduling_compiled F) eqn:Es;
      (eexists; split;
       [ unfold_m;
         repeat (progress (cbn -[N.eqb]; rewrite ?Ef, ?Es)); reflexivity
       | exact Hb ]).
  - pose proof Ef as Ef'. apply N.eqb_neq in Ef'. specialize (Hp Ef').
    subst boundFbo0 m_prevBoundFbo0.
    destruct (scheduling_compiled F) eqn:Es;
      (eexists; split;
       [ unfold_m;
         repeat (progress (cbn -[N.eqb]; rewrite ?Ef, ?Es, ?N.eqb_refl));
         reflexivity
       | reflexivity ]).
Qed.

(** One instance on its own. Take an instance that has been resized
    and is not bound (and has its backup texture if the screen is backed
    up). Then [bind] returns; after it, and after any operations of the
    instance other than [bind] and [release] that return, the global
    identifier equals the handle of the instance if it owns a GPU target,
    and is what it was before [bind] if it owns none; and the matching
    [release] returns with the global identifier equal to its value
    before [bind]. *)
Lemma bind_release_single_instance F isValid w fb :
  m_texture fb <> None ->
  (m_fbo fb <> 0%N -> boundFbo w <> m_fbo fb) ->
  (m_fbo fb = 0%N -> m_backuping fb = true -> m_screenBackup fb <> None) ->
  exists s1,
    exec bind (w, fb) = Returns s1 /\
    forall ops s2,
      Forall inner ops ->
      run F isValid ops s1 = Returns s2 ->
      (m_fbo fb <> 0%N -> boundFbo (fst s2) = m_fbo fb) /\
      (m_fbo fb = 0%N -> boundFbo (fst s2) = boundFbo w) /\
      exists s3, exec (release F) s2 = Returns s3 /\
                 boundFbo (fst s3) = boundFbo w.
Proof.
  intros Ht Hb Hk.
  destruct (bind_returns w fb Ht Hb Hk) as (s1 & E1 & B1).
  exists s1. split; [exact E1|].
  intros ops s2 Hi Hr.
  pose proof (inner_run F isValid _ _ ops s1 s2 Hi B1 Hr) as B2.
  destruct B2 as (Hf & Htex & Hbound & Hprev).
  split; [|split].
  - intros Hnz. apply N.eqb_neq in Hnz. rewrite Hnz in Hbound. exact Hbound.
  - intros Hz. rewrite Hz in Hbound. exact Hbound.
  - apply (release_returns F (m_fbo fb) (boundFbo w) s2).
    repeat split; assumption.
Qed.

(** ** Before the first resize *)





(** * Further properties *)

(** ** Outcomes of resize and release *)

Lemma exec_returns {A} (m : M A) s a s' :
  m s = Returns (a, s') -> exec m s = Returns s'.
Proof. intros H. unfold exec. rewrite H. reflexivity. Qed.

Lemma exec_aborts {A} (m : M A) s f :
  m s = Aborts f -> exec m s = Aborts f.
Proof. intros H. unfold exec. rewrite H. reflexivity. Qed.

(** Splits a characterisation into its directions and closes those that
    the hypotheses decide. *)
Ltac settle :=
  repeat split; intros;
  repeat match goal with
         | H : exists _, _ |- _ => destruct H
         | H : _ /\ _ |- _ => destruct H
         | H : _ \/ _ |- _ => destruct H
         end;
  try discriminate; try contradiction; try congruence; eauto 8.

(** X1. The outcome of [resize] in full. It returns exactly when the
    size is valid and either the texture already has that size, or the
    instance has no GPU target, or the instance is not the one bound and
    the driver reports the framebuffer complete. It ends in an assertion
    failure exactly for an invalid size or a new size on the instance
    that is bound, in a fatal error exactly when the driver reports the
    framebuffer incomplete, and never in a null dereference. *)
Theorem resize_outcomes isValid size w fb :
  ((exists s', exec (resize isValid size) (w, fb) = Returns s') <->
   isValid size = true /\
   (same_size (m_texture fb) size = true \/ m_fbo fb = 0%N \/
    (boundFbo w <> m_fbo fb /\ fbo_complete w = true))) /\
  (exec (resize isValid size) (w, fb) = Aborts AssertionFailure <->
   isValid size = false \/
   (same_size (m_texture fb) size = false /\ m_fbo fb <> 0%N /\
    boundFbo w = m_fbo fb)) /\
  (exec (resize isValid size) (w, fb) = Aborts FatalError <->
   isValid size = true /\ same_size (m_texture fb) size = false /\
   m_fbo fb <> 0%N /\ boundFbo w <> m_fbo fb /\ fbo_complete w = false) /\
  exec (resize isValid size) (w, fb) <> Aborts NullDereference.
Proof.
  destruct (isValid size) eqn:Hv.
  2:{ rewrite (exec_aborts _ _ _ (resize_invalid isValid size (w, fb) Hv)).
      settle. }
  destruct (same_size (m_texture fb) size) eqn:Hs.
  { rewrite (exec_returns _ _ _ _ (resize_same isValid size w fb Hv Hs)).
    settle. }
  destruct (N.eq_dec (m_fbo fb) 0%N) as [Hf|Hf].
  { destruct (resize_backup isValid size w fb Hv Hs Hf) as (s' & E & _).
    rewrite (exec_returns _ _ _ _ E). settle. }
  destruct (N.eq_dec (boundFbo w) (m_fbo fb)) as [Hb|Hb].
  { rewrite (exec_aborts _ _ _ (resize_while_bound isValid size w fb Hv Hs Hf Hb)).
    settle. }
  destruct (fbo_complete w) eqn:Hc.
  - destruct (resize_real isValid size w fb Hv Hs Hf Hb Hc) as (s' & E & _).
    rewrite (exec_returns _ _ _ _ E). settle.
  - rewrite (exec_aborts _ _ _ (resize_incomplete isValid size w fb Hv Hs Hf Hb Hc)).
    settle.
Qed.

Lemma release_with_target F w fb :
  m_fbo fb <> 0%N -> boundFbo w = m_fbo fb ->
  exec (release F) (w, fb) =
  Returns (log restoreSavedState
             (set_boundFbo (m_prevBoundFbo fb)
                (log (glBindFramebuffer (m_prevBoundFbo fb)) w)),
           after_release F (clock w) fb).
Proof.
  intros Hf Hb. apply N.eqb_neq in Hf. apply N.eqb_eq in Hb.
  unfold after_release. destruct w, fb. simpl in *.
  destruct (scheduling_compiled F) eqn:Es; unfold_m;
    repeat (progress (cbn -[N.eqb]; rewrite ?Hf, ?Hb, ?Es)); reflexivity.
Qed.

Lemma release_mismatch F w fb :
  m_fbo fb <> 0%N -> boundFbo w <> m_fbo fb ->
  exec (release F) (w, fb) = Aborts AssertionFailure.
Proof.
  intros Hf Hb. unfold exec, release, bind_.
  rewrite internalRelease_mismatch by assumption. reflexivity.
Qed.

Lemma release_without_target F w fb t :
  m_fbo fb = 0%N -> m_texture fb = Some t ->
  exec (release F) (w, fb) =
  Returns (log restoreSavedState
             (let w1 := log (tex_copyFromScreen (tex_id t) (screen_rect w t)) w in
              if m_backuping fb
              then log glEnable_BLEND
                     (log (drawTexturedRect (screen_rect w t) (m_screenBackup fb)
                                            (screen_rect w t))
                        (log resetColor (log glDisable_BLEND w1)))
              else w1),
           after_release F (clock w)
             (set_texture (Some (copyFromScreen (screen_rect w t) t)) fb)).
Proof.
  intros Hf Ht. unfold after_release, screen_rect.
  destruct w, fb. simpl in *. subst.
  destruct m_backuping0, (scheduling_compiled F) eqn:Es; unfold_m;
    repeat (progress (cbn; rewrite ?Es)); reflexivity.
Qed.

Lemma release_null F w fb :
  m_fbo fb = 0%N -> m_texture fb = None ->
  exec (release F) (w, fb) = Aborts NullDereference.
Proof.
  intros Hf Ht. destruct w, fb. simpl in *. subst. reflexivity.
Qed.

(** X2. The outcome of [release] in full. With a GPU target it returns
    exactly when the global identifier is the handle of the instance,
    and fails the assertion otherwise; without one it returns exactly
    when the backing texture exists, and dereferences null otherwise. It
    never ends in a fatal error. *)
Theorem release_outcomes F w fb :
  ((exists s', exec (release F) (w, fb) = Returns s') <->
   (m_fbo fb <> 0%N /\ boundFbo w = m_fbo fb) \/
   (m_fbo fb = 0%N /\ m_texture fb <> None)) /\
  (exec (release F) (w, fb) = Aborts AssertionFailure <->
   m_fbo fb <> 0%N /\ boundFbo w <> m_fbo fb) /\
  (exec (release F) (w, fb) = Aborts NullDereference <->
   m_fbo fb = 0%N /\ m_texture fb = None) /\
  exec (release F) (w, fb) <> Aborts FatalError.
Proof.
  destruct (N.eq_dec (m_fbo fb) 0%N) as [Hf|Hf].
  - destruct (m_texture fb) as [t|] eqn:Ht.
    + rewrite (release_without_target F w fb t Hf Ht). settle.
    + rewrite (release_null F w fb Hf Ht). settle.
  - destruct (N.eq_dec (boundFbo w) (m_fbo fb)) as [Hb|Hb].
    + rewrite (release_with_target F w fb Hf Hb). settle.
    + rewrite (release_mismatch F w fb Hf Hb). settle.
Qed.

Lemma release_bookkeeping F w fb s' :
  exec (release F) (w, fb) = Returns s' ->
  exists fb0, snd s' = after_release F (clock w) fb0 /\
              m_schedulePaintingEnabled fb0 = m_schedulePaintingEnabled fb /\
              m_schedules fb0 = m_schedules fb.
Proof.
  intros H.
  destruct (N.eq_dec (m_fbo fb) 0%N) as [Hf|Hf].
  - destruct (m_texture fb) as [t|] eqn:Ht.
    + rewrite (release_without_target F w fb t Hf Ht) in H.
      inversion H; subst. simpl. eexists. split; [reflexivity|]. auto.
    + rewrite (release_null F w fb Hf Ht) in H. discriminate.
  - destruct (N.eq_dec (boundFbo w) (m_fbo fb)) as [Hb|Hb].
    + rewrite (release_with_target F w fb Hf Hb) in H.
      inversion H; subst. simpl. eauto.
    + rewrite (release_mismatch F w fb Hf Hb) in H. discriminate.
Qed.

(** X3. Once [release] has returned, the instance is not due for an
    update while scheduling is on, whatever time passes, until a request
    or a forced update comes in; with scheduling off it is due exactly
    from [flushTime] ticks after the release on. *)
Theorem canUpdate_after_release F w fb s' :
  exec (release F) (w, fb) = Returns s' ->
  forall w2,
    canUpdate F w2 (snd s') =
    if scheduling F fb then false
    else flushTime F (snd s') <=? clock w2 - clock w.
Proof.
  intros H w2.
  destruct (release_bookkeeping F w fb s' H) as (fb0 & -> & He & _).
  unfold canUpdate, scheduling, after_release, ticksElapsed.
  destruct (scheduling_compiled F) eqn:Es; simpl; rewrite ?He;
    destruct (m_schedulePaintingEnabled fb); reflexivity.
Qed.

Lemma canUpdate_after_release_witness :
  canUpdate sample_features (set_boundFbo 0 world_two_bound)
    (after_release sample_features 0 fb_two) = false.
Proof.
  assert (H : exec (release sample_features) (world_two_bound, fb_two)
              = Returns (log restoreSavedState
                           (set_boundFbo 0
                              (log (glBindFramebuffer 0) world_two_bound)),
                         after_release sample_features 0 fb_two))
    by (vm_compute; reflexivity).
  apply (canUpdate_after_release sample_features world_two_bound fb_two _ H
           (set_boundFbo 0 world_two_bound)).
Defined.

(** ** Requests and the flush interval *)

Lemma wrap_succ bits (n : N) : wrap bits (wrap bits n + 1) = wrap bits (n + 1).
Proof. unfold wrap. apply N.Div0.add_mod_idemp_l. Qed.

Lemma update_scheduling F fb : scheduling F (update F fb) = scheduling F fb.
Proof. unfold update. destruct (scheduling F fb) eqn:E; [|exact E]. exact E. Qed.

Lemma update_keeps F fb :
  m_forceUpdate (update F fb) = m_forceUpdate fb /\
  m_lastRenderedTime (update F fb) = m_lastRenderedTime fb.
Proof. unfold update. destruct (scheduling F fb); auto. Qed.

Lemma iter_update_scheduling F fb n :
  scheduling F (Nat.iter n (update F) fb) = scheduling F fb.
Proof.
  induction n as [|n IH]; simpl; [reflexivity|].
  rewrite update_scheduling. exact IH.
Qed.

Lemma iter_update_counter F fb n :
  scheduling F fb = true ->
  m_requestAmount (Nat.iter (S n) (update F) fb)
  = wrap (request_bits F) (m_requestAmount fb + N.of_nat (S n)).
Proof.
  intros Hs. induction n as [|n IH].
  - simpl. unfold update. rewrite Hs. reflexivity.
  - assert (Hg : scheduling F (Nat.iter (S n) (update F) fb) = true)
      by (rewrite iter_update_scheduling; exact Hs).
    change (Nat.iter (S (S n)) (update F) fb)
      with (update F (Nat.iter (S n) (update F) fb)).
    remember (Nat.iter (S n) (update F) fb) as g.
    unfold update. rewrite Hg. cbn [m_requestAmount set_requestAmount].
    rewrite IH, wrap_succ. f_equal. lia.
Qed.

(** X4. With scheduling on, [n >= 1] calls of [update] leave the
    pending-request counter at the old value plus [n], reduced modulo the
    range of the counter, and change nothing else that [canUpdate] reads
    but the counter. As long as the sum stays within the range, the
    instance is then due for an update as soon as [flushTime] ticks have
    elapsed. *)
Theorem update_counts_requests F w fb n :
  scheduling F fb = true ->
  (0 < n)%nat ->
  let fb' := Nat.iter n (update F) fb in
  m_requestAmount fb' = wrap (request_bits F) (m_requestAmount fb + N.of_nat n) /\
  m_forceUpdate fb' = m_forceUpdate fb /\
  m_lastRenderedTime fb' = m_lastRenderedTime fb /\
  ((m_requestAmount fb + N.of_nat n < 2 ^ request_bits F)%N ->
   flushTime F fb' <= ticksElapsed w fb' ->
   canUpdate F w fb' = true).
Proof.
  intros Hs Hn fb'. subst fb'.
  destruct n as [|n]; [lia|].
  assert (Hkeep : forall k,
            m_forceUpdate (Nat.iter k (update F) fb) = m_forceUpdate fb /\
            m_lastRenderedTime (Nat.iter k (update F) fb) = m_lastRenderedTime fb).
  { induction k as [|k [IH1 IH2]]; simpl; [auto|].
    destruct (update_keeps F (Nat.iter k (update F) fb)) as [-> ->]. auto. }
  destruct (Hkeep (S n)) as [Hforce Htime].
  pose proof (iter_update_counter F fb n Hs) as Hc.
  repeat split; try assumption.
  intros Hfit Hel.
  unfold canUpdate. rewrite iter_update_scheduling, Hs.
  rewrite Hc, wrap_small by exact Hfit.
  apply orb_true_iff. right. apply andb_true_iff. split.
  - apply N.ltb_lt. lia.
  - apply Z.leb_le. exact Hel.
Qed.

Lemma update_counts_requests_witness :
  m_requestAmount (Nat.iter 3 (update sample_features) sample_fb) = 3%N.
Proof.
  apply (update_counts_requests sample_features sample_world sample_fb 3);
    [reflexivity | lia].
Defined.

(** X5. With adaptive flush control, constants [0 <= MIN <= MAX <= 255]
    and a request count whose batched value still fits [uint8_t], the
    flush interval lies between the minimum and the maximum; it is the
    minimum while fewer than [FLUSH_AMOUNT] requests are pending and the
    maximum from [FLUSH_AMOUNT * (MAX - MIN)] requests on. *)
Theorem flushTime_between_min_and_max F fb :
  FLUSH_CONTROL_FOR_RENDERING F = 1 ->
  0 < FLUSH_AMOUNT F ->
  0 <= MIN_TIME_UPDATE F <= MAX_TIME_UPDATE F ->
  MAX_TIME_UPDATE F <= 255 ->
  MIN_TIME_UPDATE F + Z.of_N (m_requestAmount fb) / FLUSH_AMOUNT F <= 255 ->
  MIN_TIME_UPDATE F <= flushTime F fb <= MAX_TIME_UPDATE F /\
  (Z.of_N (m_requestAmount fb) < FLUSH_AMOUNT F ->
   flushTime F fb = MIN_TIME_UPDATE F) /\
  (FLUSH_AMOUNT F * (MAX_TIME_UPDATE F - MIN_TIME_UPDATE F)
   <= Z.of_N (m_requestAmount fb) ->
   flushTime F fb = MAX_TIME_UPDATE F).
Proof.
  intros Hf Hq Hmm Hmax Hfit.
  rewrite flushTime_in_range by (try assumption; lia).
  rewrite (to_uint8_small (MAX_TIME_UPDATE F)) by lia.
  assert (Hpos : 0 <= Z.of_N (m_requestAmount fb) / FLUSH_AMOUNT F)
    by (apply Z.div_pos; lia).
  repeat split; try lia.
  - intros Hlt. rewrite Z.div_small by lia. lia.
  - intros Hge.
    assert (MAX_TIME_UPDATE F - MIN_TIME_UPDATE F
            <= Z.of_N (m_requestAmount fb) / FLUSH_AMOUNT F).
    { apply Z.div_le_lower_bound; lia. }
    lia.
Qed.

Lemma flushTime_between_min_and_max_witness :
  flushTime sample_features (set_requestAmount 42000 sample_fb) = 100.
Proof.
  apply (flushTime_between_min_and_max sample_features
           (set_requestAmount 42000 sample_fb));
    vm_compute; try congruence; split; congruence.
Defined.

(** ** Subscriptions: missing keys, round trips, independence *)

Lemma schedule_at_insert_ne fb (d t : N) e :
  t <> d ->
  schedule_at (set_schedules (<[d := e]> (m_schedules fb)) fb) t = schedule_at fb t.
Proof.
  intros Hne. unfold schedule_at. simpl.
  rewrite lookup_insert_ne by congruence. reflexivity.
Qed.

Lemma schedule_at_insert_same fb (d t : N) :
  schedule_at (set_schedules (<[d := schedule_at fb d]> (m_schedules fb)) fb) t
  = schedule_at fb t.
Proof.
  destruct (N.eq_dec t d) as [->|Hne].
  - apply schedule_at_insert.
  - apply schedule_at_insert_ne, Hne.
Qed.

(** X6. [removeRenderingTime] for a duration nobody is subscribed to
    (no entry, or an entry with count zero) cancels nothing and changes
    no count and no handle: the dispatcher is untouched, every duration
    reads as before, and apart from the table, which may have gained the
    default entry, the instance is as it was. *)
Theorem removeRenderingTime_unsubscribed F w fb (d : N) :
  fst (schedule_at fb d) = 0%N ->
  fst (removeRenderingTime F d (w, fb)) = w /\
  (forall t, schedule_at (snd (removeRenderingTime F d (w, fb))) t
             = schedule_at fb t) /\
  set_schedules (m_schedules fb) (snd (removeRenderingTime F d (w, fb))) = fb.
Proof.
  intros Hz. unfold removeRenderingTime.
  destruct (negb (scheduling_compiled F)).
  - simpl. repeat split. destruct fb; reflexivity.
  - rewrite Hz. simpl. repeat split.
    + intros t. apply schedule_at_insert_same.
    + destruct fb; reflexivity.
Qed.

Lemma removeRenderingTime_unsubscribed_witness :
  fst (removeRenderingTime sample_features 250 (sample_world, sample_fb))
  = sample_world.
Proof.
  apply (removeRenderingTime_unsubscribed sample_features sample_world sample_fb 250).
  reflexivity.
Defined.

Lemma removeRenderingTime_subscribed F w fb (d : N) :
  SCHEDULE_PAINTING F <> 0 ->
  fst (schedule_at fb d) <> 0%N ->
  removeRenderingTime F d (w, fb) =
  match (wrap (schedule_bits F) (fst (schedule_at fb d) - 1) =? 0)%N,
        snd (schedule_at fb d) with
  | true, Some h =>
      (cancel h w,
       set_schedules
         (<[d := (wrap (schedule_bits F) (fst (schedule_at fb d) - 1), None)]>
            (m_schedules fb)) fb)
  | _, _ =>
      (w, set_schedules
            (<[d := (wrap (schedule_bits F) (fst (schedule_at fb d) - 1),
                     snd (schedule_at fb d))]> (m_schedules fb)) fb)
  end.
Proof.
  intros Hc Hnz. unfold removeRenderingTime.
  rewrite (scheduling_compiled_true F Hc). simpl negb. cbv iota.
  apply N.eqb_neq in Hnz. rewrite Hnz. reflexivity.
Qed.

(** X7. Unsubscribing right after subscribing restores the table: with
    scheduling on, a duration above the minimum that is neither zero nor
    the sentinel, a consistent table and a count below the top of its
    range, every duration reads after [schedulePainting(d)] then
    [removeRenderingTime(d)] as it did before. If there were subscribers
    already the dispatcher is untouched; if there were none, the one
    event that was registered is left cancelled. *)
Theorem unsubscribe_after_subscribe F w fb (d : N) :
  SCHEDULE_PAINTING F <> 0 ->
  m_schedulePaintingEnabled fb = true ->
  d <> 0%N ->
  Z.of_N d <> FORCE_UPDATE F ->
  MIN_TIME_UPDATE F < Z.of_N d ->
  schedules_consistent fb ->
  (fst (schedule_at fb d) + 1 < 2 ^ schedule_bits F)%N ->
  let s' := removeRenderingTime F d (schedulePainting F d (w, fb)) in
  (forall t, schedule_at (snd s') t = schedule_at fb t) /\
  ((0 < fst (schedule_at fb d))%N -> fst s' = w) /\
  (fst (schedule_at fb d) = 0%N ->
   events (fst s') = events w ++ [mkEvent d true]).
Proof.
  intros Hc He H0 Hf Hm Hcons Hroom s'. subst s'.
  pose proof (schedule_at_consistent fb d Hcons) as Hsd.
  destruct (N.eq_dec (fst (schedule_at fb d)) 0%N) as [Hz|Hnz].
  - (* first subscriber: an event is registered, then cancelled *)
    assert (Hnone : snd (schedule_at fb d) = None).
    { destruct (snd (schedule_at fb d)) eqn:E; [|reflexivity].
      exfalso. assert (0 < fst (schedule_at fb d))%N by (apply Hsd; congruence).
      lia. }
    assert (H1 : (1 < 2 ^ schedule_bits F)%N) by (rewrite Hz in Hroom; exact Hroom).
    rewrite schedulePainting_first by assumption.
    rewrite (wrap_small _ 1) by exact H1.
    rewrite removeRenderingTime_subscribed;
      [| exact Hc | rewrite schedule_at_insert; simpl; lia].
    rewrite schedule_at_insert. cbn [fst snd].
    change (1 - 1)%N with 0%N. rewrite wrap_small by lia.
    cbn -[wrap cancel]. rewrite insert_insert_eq, cancel_last.
    rewrite set_schedules_twice.
    split; [|split].
    + intros t. destruct (N.eq_dec t d) as [->|Hne].
      * rewrite schedule_at_insert. destruct (schedule_at fb d); simpl in *.
        congruence.
      * apply schedule_at_insert_ne, Hne.
    + intros Hpos. lia.
    + intros _. reflexivity.
  - (* further subscriber: the count goes up and down again *)
    assert (Hc1 : (fst (schedule_at fb d) < 2 ^ schedule_bits F)%N) by lia.
    rewrite schedulePainting_again by assumption.
    rewrite (wrap_small _ (_ + 1)) by exact Hroom.
    rewrite removeRenderingTime_subscribed;
      [| exact Hc | rewrite schedule_at_insert; simpl; lia].
    rewrite schedule_at_insert. cbn [fst snd].
    rewrite N.add_sub. rewrite wrap_small by exact Hc1.
    pose proof Hnz as Hnz'. apply N.eqb_neq in Hnz'. rewrite Hnz'.
    cbn -[wrap]. rewrite insert_insert_eq.
    rewrite set_schedules_twice.
    split; [|split].
    + intros t. destruct (N.eq_dec t d) as [->|Hne].
      * rewrite schedule_at_insert. destruct (schedule_at fb d); reflexivity.
      * apply schedule_at_insert_ne, Hne.
    + intros _. reflexivity.
    + intros Hz. contradiction.
Qed.

Lemma unsubscribe_after_subscribe_witness :
  schedule_at
    (snd (removeRenderingTime sample_features 100
            (schedulePainting sample_features 100 (world_subscribed, fb_subscribed))))
    100
  = schedule_at fb_subscribed 100.
Proof.
  apply (unsubscribe_after_subscribe sample_features world_subscribed
           fb_subscribed 100);
    try (vm_compute; congruence).
  intros t c h. unfold fb_subscribed. simpl. rewrite lookup_insert.
  destruct (decide (100%N = t)); [|rewrite lookup_empty; discriminate].
  intros E. inversion E; subst. split; [reflexivity | discriminate].
Defined.

Lemma schedulePainting_other F s (d t : N) :
  t <> d ->
  schedule_at (snd (schedulePainting F d s)) t = schedule_at (snd s) t.
Proof.
  intros Hne. destruct s as [w fb]. unfold schedulePainting.
  destruct (negb (scheduling_compiled F) || negb (m_schedulePaintingEnabled fb));
    [reflexivity|].
  destruct (d =? 0)%N; [reflexivity|].
  destruct (Z.of_N d =? FORCE_UPDATE F); [reflexivity|].
  destruct (Z.of_N d <=? MIN_TIME_UPDATE F).
  { simpl. unfold schedule_at. rewrite update_schedules. reflexivity. }
  destruct (fst (schedule_at fb d) =? 0)%N; simpl;
    apply schedule_at_insert_ne, Hne.
Qed.

Lemma removeRenderingTime_other F s (d t : N) :
  t <> d ->
  schedule_at (snd (removeRenderingTime F d s)) t = schedule_at (snd s) t.
Proof.
  intros Hne. destruct s as [w fb]. unfold removeRenderingTime.
  destruct (negb (scheduling_compiled F)); [reflexivity|].
  destruct (fst (schedule_at fb d) =? 0)%N;
    [simpl; apply schedule_at_insert_ne, Hne|].
  destruct (wrap (schedule_bits F) (fst (schedule_at fb d) - 1) =? 0)%N;
    [destruct (snd (schedule_at fb d))|]; simpl;
    apply schedule_at_insert_ne, Hne.
Qed.

Lemma cancel_first_of_two (w : World) l e1 e2 :
  cancel (length l) (set_events (l ++ [e1; e2]) w)
  = set_events (l ++ [ev_cancel e1; e2]) w.
Proof.
  unfold cancel, set_events. simpl. f_equal.
  rewrite <- (Nat.add_0_r (length l)). rewrite alter_app_r. reflexivity.
Qed.

(** X8. Entries are keyed by the exact duration and never merged. A
    call of [schedulePainting] or [removeRenderingTime] for one duration
    leaves the count and the handle of every other duration alone. Two
    first subscriptions to different durations above the minimum register
    two events, one per duration, each held by its own entry; giving up
    the first cancels the first event only and the second entry keeps its
    count and its live event. *)
Theorem durations_independent F w fb (d1 d2 : N) :
  SCHEDULE_PAINTING F <> 0 ->
  m_schedulePaintingEnabled fb = true ->
  d1 <> d2 ->
  d1 <> 0%N -> Z.of_N d1 <> FORCE_UPDATE F -> MIN_TIME_UPDATE F < Z.of_N d1 ->
  d2 <> 0%N -> Z.of_N d2 <> FORCE_UPDATE F -> MIN_TIME_UPDATE F < Z.of_N d2 ->
  fst (schedule_at fb d1) = 0%N ->
  fst (schedule_at fb d2) = 0%N ->
  (1 <= schedule_bits F)%N ->
  let n := length (events w) in
  let s2 := schedulePainting F d2 (schedulePainting F d1 (w, fb)) in
  let s3 := removeRenderingTime F d1 s2 in
  (forall d t s, t <> d ->
     schedule_at (snd (schedulePainting F d s)) t = schedule_at (snd s) t /\
     schedule_at (snd (removeRenderingTime F d s)) t = schedule_at (snd s) t) /\
  events (fst s2) = events w ++ [mkEvent d1 false; mkEvent d2 false] /\
  schedule_at (snd s2) d1 = (1%N, Some n) /\
  schedule_at (snd s2) d2 = (1%N, Some (S n)) /\
  events (fst s3) = events w ++ [mkEvent d1 true; mkEvent d2 false] /\
  schedule_at (snd s3) d1 = (0%N, None) /\
  schedule_at (snd s3) d2 = (1%N, Some (S n)).
Proof.
  intros Hc He Hne H10 H1f H1m H20 H2f H2m Hz1 Hz2 Hbits n s2 s3.
  split.
  { intros d t s Ht. split;
      [apply schedulePainting_other | apply removeRenderingTime_other]; exact Ht. }
  assert (Hpow : (1 < 2 ^ schedule_bits F)%N).
  { change 1%N with (2 ^ 0)%N at 1. apply N.pow_lt_mono_r; lia. }
  assert (E2 : s2 =
    (set_events (events w ++ [mkEvent d1 false; mkEvent d2 false]) w,
     set_schedules (<[d2 := (1%N, Some (S n))]>
                      (<[d1 := (1%N, Some n)]> (m_schedules fb))) fb)).
  { subst s2. rewrite schedulePainting_first by assumption.
    rewrite (wrap_small _ 1) by exact Hpow.
    rewrite schedulePainting_first; try assumption.
    - rewrite (wrap_small _ 1) by exact Hpow. simpl.
      rewrite length_app, <- app_assoc. simpl.
      replace (length (events w) + 1)%nat with (S n) by (subst n; lia).
      reflexivity.
    - rewrite schedule_at_insert_ne by congruence. exact Hz2. }
  assert (A1 : schedule_at (snd s2) d1 = (1%N, Some n)).
  { rewrite E2. simpl. unfold schedule_at. simpl.
    rewrite lookup_insert_ne by congruence. rewrite lookup_insert_eq. reflexivity. }
  assert (A2 : schedule_at (snd s2) d2 = (1%N, Some (S n))).
  { rewrite E2. simpl. unfold schedule_at. simpl.
    rewrite lookup_insert_eq. reflexivity. }
  assert (E3 : fst s3 = set_events (events w ++ [mkEvent d1 true; mkEvent d2 false]) w /\
               schedule_at (snd s3) d1 = (0%N, None)).
  { subst s3. destruct s2 as [w2 fb2]. simpl in A1, A2.
    rewrite removeRenderingTime_subscribed; [| exact Hc | rewrite A1; simpl; lia].
    rewrite A1. cbn [fst snd]. change (1 - 1)%N with 0%N.
    rewrite wrap_small by lia. cbn -[cancel].
    rewrite schedule_at_insert. split; [|reflexivity].
    inversion E2; subst. subst n. rewrite cancel_first_of_two. reflexivity. }
  destruct E3 as [E3 A3].
  repeat split; try assumption.
  - rewrite E2. reflexivity.
  - rewrite E3. reflexivity.
  - subst s3. rewrite removeRenderingTime_other by congruence. exact A2.
Qed.

Lemma durations_independent_witness :
  events (fst (schedulePainting sample_features 200
                 (schedulePainting sample_features 100 (sample_world, sample_fb))))
  = [mkEvent 100 false; mkEvent 200 false].
Proof.
  apply (durations_independent sample_features sample_world sample_fb 100 200);
    vm_compute; congruence.
Defined.

(** ** Ownership of the scheduled events *)

Lemma schedule_at_Some fb (t : N) c h :
  m_schedules fb !! t = Some (c, h) -> schedule_at fb t = (c, h).
Proof. intros E. unfold schedule_at. rewrite E. reflexivity. Qed.

Lemma schedule_at_handle fb (t : N) h :
  snd (schedule_at fb t) = Some h ->
  m_schedules fb !! t = Some (fst (schedule_at fb t), Some h).
Proof.
  unfold schedule_at. destruct (m_schedules fb !! t) as [[c h']|]; simpl.
  - intros ->. reflexivity.
  - discriminate.
Qed.

Lemma tasks_owned_same l0 s s' :
  dispatch_of s' = dispatch_of s -> tasks_owned l0 s -> tasks_owned l0 s'.
Proof.
  unfold dispatch_of, tasks_owned, handles_alive, live_events_owned.
  intros E H. inversion E as [[E1 E2]]. rewrite E1, E2. exact H.
Qed.

Lemma tasks_owned_start w fb :
  m_schedules fb = ∅ -> tasks_owned (events w) (w, fb).
Proof.
  intros E. unfold tasks_owned, handles_alive, live_events_owned. simpl.
  rewrite E. repeat split.
  - apply firstn_all.
  - lia.
  - intros t c h H. rewrite lookup_empty in H. discriminate.
  - intros t c h H. rewrite lookup_empty in H. discriminate.
  - intros i e Hi He. apply lookup_lt_Some in He. lia.
Qed.

Lemma schedulePainting_owned F l0 w fb (d : N) :
  schedules_consistent fb ->
  tasks_owned l0 (w, fb) ->
  tasks_owned l0 (schedulePainting F d (w, fb)).
Proof.
  intros Hcons Hown. unfold schedulePainting.
  destruct (negb (scheduling_compiled F) || negb (m_schedulePaintingEnabled fb));
    [exact Hown|].
  destruct (d =? 0)%N; [exact Hown|].
  destruct (Z.of_N d =? FORCE_UPDATE F);
    [eapply tasks_owned_same; [|exact Hown]; reflexivity|].
  destruct (Z.of_N d <=? MIN_TIME_UPDATE F).
  { eapply tasks_owned_same; [|exact Hown].
    unfold dispatch_of. simpl. rewrite update_schedules. reflexivity. }
  destruct Hown as (Htake & Hlen & Hge & Halive & Hlive). simpl in *.
  pose proof (schedule_at_consistent fb d Hcons) as Hsd.
  destruct (fst (schedule_at fb d) =? 0)%N eqn:E0; simpl.
  - (* a new event is registered *)
    apply N.eqb_eq in E0.
    assert (Hold : forall c h, m_schedules fb !! d = Some (c, Some h) -> False).
    { intros c h E. rewrite (schedule_at_Some fb d c (Some h) E) in Hsd, E0.
      simpl in *. assert (0 < c)%N by (apply Hsd; discriminate). lia. }
    unfold tasks_owned, handles_alive, live_events_owned. simpl.
    split; [rewrite take_app_le by exact Hlen; exact Htake|].
    split; [rewrite length_app; lia|].
    split; [|split].
    + intros t c h. rewrite lookup_insert.
      destruct (decide (d = t)) as [->|Hne].
      * intros E. inversion E; subst. exact Hlen.
      * apply Hge.
    + intros t c h. rewrite lookup_insert.
      destruct (decide (d = t)) as [->|Hne].
      * intros E. inversion E; subst. apply list_lookup_middle. reflexivity.
      * intros E. pose proof (Halive t c h E) as Hev.
        rewrite lookup_app_l by (eapply lookup_lt_Some; exact Hev). exact Hev.
    + intros i e Hi He Hc.
      destruct (Nat.lt_ge_cases i (length (events w))) as [Hlt|Hge'].
      * rewrite lookup_app_l in He by exact Hlt.
        destruct (Hlive i e Hi He Hc) as [c Hm].
        exists c. rewrite lookup_insert_ne; [exact Hm|].
        intros Heq. rewrite <- Heq in Hm. exact (Hold c i Hm).
      * rewrite lookup_app_r in He by exact Hge'.
        destruct (i - length (events w))%nat as [|k] eqn:Ek;
          [|destruct k; discriminate].
        simpl in He. inversion He; subst. simpl.
        assert (i = length (events w)) by lia. subst i.
        eexists. apply lookup_insert_eq.
  - (* the event is shared *)
    apply N.eqb_neq in E0.
    unfold tasks_owned, handles_alive, live_events_owned. simpl.
    split; [exact Htake|]. split; [exact Hlen|].
    split; [|split].
    + intros t c h. rewrite lookup_insert.
      destruct (decide (d = t)) as [->|Hne]; [|apply Hge].
      intros E. inversion E as [[Ec Eh]].
      apply (Hge t _ h (schedule_at_handle fb t h Eh)).
    + intros t c h. rewrite lookup_insert.
      destruct (decide (d = t)) as [->|Hne]; [|apply Halive].
      intros E. inversion E as [[Ec Eh]].
      apply (Halive t _ h (schedule_at_handle fb t h Eh)).
    + intros i e Hi He Hc.
      destruct (Hlive i e Hi He Hc) as [c Hm].
      destruct (N.eq_dec d (ev_delay e)) as [Heq|Hne].
      * rewrite <- Heq in *. rewrite (schedule_at_Some fb d c (Some i) Hm).
        simpl. eexists. apply lookup_insert_eq.
      * exists c. rewrite lookup_insert_ne by exact Hne. exact Hm.
Qed.

Lemma tasks_owned_reinsert l0 w fb (d : N) c :
  tasks_owned l0 (w, fb) ->
  tasks_owned l0
    (w, set_schedules (<[d := (c, snd (schedule_at fb d))]> (m_schedules fb)) fb).
Proof.
  intros (Htake & Hlen & Hge & Halive & Hlive). simpl in *.
  unfold tasks_owned, handles_alive, live_events_owned. simpl.
  split; [exact Htake|]. split; [exact Hlen|].
  split; [|split].
  - intros t c' h. rewrite lookup_insert.
    destruct (decide (d = t)) as [->|Hne]; [|apply Hge].
    intros E. inversion E as [[Ec Eh]].
    apply (Hge t _ h (schedule_at_handle fb t h Eh)).
  - intros t c' h. rewrite lookup_insert.
    destruct (decide (d = t)) as [->|Hne]; [|apply Halive].
    intros E. inversion E as [[Ec Eh]].
    apply (Halive t _ h (schedule_at_handle fb t h Eh)).
  - intros i e Hi He Hc.
    destruct (Hlive i e Hi He Hc) as [c' Hm].
    destruct (N.eq_dec d (ev_delay e)) as [Heq|Hne].
    + rewrite <- Heq in *. rewrite (schedule_at_Some fb d c' (Some i) Hm).
      simpl. eexists. apply lookup_insert_eq.
    + exists c'. rewrite lookup_insert_ne by exact Hne. exact Hm.
Qed.

Lemma removeRenderingTime_owned F l0 w fb (d : N) :
  tasks_owned l0 (w, fb) ->
  tasks_owned l0 (removeRenderingTime F d (w, fb)).
Proof.
  intros Hown. unfold removeRenderingTime.
  destruct (negb (scheduling_compiled F)); [exact Hown|].
  destruct (fst (schedule_at fb d) =? 0)%N.
  { destruct (schedule_at fb d) as [c h] eqn:Es.
    replace h with (snd (schedule_at fb d)) by (rewrite Es; reflexivity).
    apply tasks_owned_reinsert, Hown. }
  destruct (wrap (schedule_bits F) (fst (schedule_at fb d) - 1) =? 0)%N;
    [|apply tasks_owned_reinsert, Hown].
  destruct (snd (schedule_at fb d)) as [h|] eqn:Eh.
  2:{ rewrite <- Eh. apply tasks_owned_reinsert, Hown. }
  (* the last subscriber leaves: the event is cancelled *)
  destruct Hown as (Htake & Hlen & Hge & Halive & Hlive). simpl in *.
  pose proof (schedule_at_handle fb d h Eh) as Hd.
  pose proof (Hge d _ h Hd) as Hh.
  pose proof (Halive d _ h Hd) as Hev. simpl in Hev.
  unfold tasks_owned, handles_alive, live_events_owned, cancel. simpl.
  split; [rewrite take_alter_ge by exact Hh; exact Htake|].
  split; [rewrite length_alter; exact Hlen|].
  split; [|split].
  - intros t c h'. rewrite lookup_insert.
    destruct (decide (d = t)) as [->|Hne]; [discriminate | apply Hge].
  - intros t c h'. rewrite lookup_insert.
    destruct (decide (d = t)) as [->|Hne]; [discriminate|].
    intros E. pose proof (Halive t c h' E) as Hev'. simpl in Hev'.
    rewrite list_lookup_alter_ne; [exact Hev'|].
    intros Heq. subst h'. rewrite Hev in Hev'. inversion Hev'. contradiction.
  - intros i e Hi He Hc.
    destruct (Nat.eq_dec h i) as [->|Hne].
    + rewrite list_lookup_alter_eq, Hev in He. simpl in He.
      inversion He; subst. discriminate.
    + rewrite list_lookup_alter_ne in He by exact Hne.
      destruct (Hlive i e Hi He Hc) as [c Hm]. simpl in Hm.
      exists c. rewrite lookup_insert_ne; [exact Hm|].
      intros Heq. rewrite <- Heq in Hm. rewrite Hd in Hm.
      inversion Hm. contradiction.
Qed.

Lemma getSize_dispatch : preserves dispatch_of getSize.
Proof. unfold getSize. frame. Qed.

Lemma resize_dispatch isValid size : preserves dispatch_of (resize isValid size).
Proof. unfold resize, newTexture, emit. frame; reflexivity. Qed.

Lemma bind_dispatch : preserves dispatch_of bind.
Proof. unfold bind, emit. frame; reflexivity. Qed.

Lemma release_dispatch F : preserves dispatch_of (release F).
Proof. unfold release, emit. frame; reflexivity. Qed.

Lemma draw_dispatch : preserves dispatch_of draw.
Proof. unfold draw, emit. frame; reflexivity. Qed.

Lemma draw_dest_dispatch dest : preserves dispatch_of (draw_dest dest).
Proof. unfold draw_dest, emit. frame; reflexivity. Qed.

Lemma draw_dest_src_dispatch dest src :
  preserves dispatch_of (draw_dest_src dest src).
Proof. unfold draw_dest_src, emit. frame; reflexivity. Qed.

Lemma step_owned F isValid l0 o s s' :
  schedules_consistent (snd s) ->
  tasks_owned l0 s ->
  step F isValid o s = Returns s' ->
  tasks_owned l0 s'.
Proof.
  intros Hcons Hown H. destruct o; simpl in H.
  - eapply tasks_owned_same; [|exact Hown].
    apply (preserves_exec dispatch_of _ _ _ (resize_dispatch isValid size) H).
  - eapply tasks_owned_same; [|exact Hown].
    apply (preserves_exec dispatch_of _ _ _ bind_dispatch H).
  - eapply tasks_owned_same; [|exact Hown].
    apply (preserves_exec dispatch_of _ _ _ (release_dispatch F) H).
  - eapply tasks_owned_same; [|exact Hown].
    apply (preserves_exec dispatch_of _ _ _ draw_dispatch H).
  - eapply tasks_owned_same; [|exact Hown].
    apply (preserves_exec dispatch_of _ _ _ (draw_dest_dispatch dest) H).
  - eapply tasks_owned_same; [|exact Hown].
    apply (preserves_exec dispatch_of _ _ _ (draw_dest_src_dispatch dest src) H).
  - eapply tasks_owned_same; [|exact Hown].
    apply (preserves_exec dispatch_of _ _ _ getSize_dispatch H).
  - inversion H; subst. exact Hown.
  - inversion H; subst. eapply tasks_owned_same; [|exact Hown].
    unfold dispatch_of. simpl. rewrite update_schedules. reflexivity.
  - inversion H; subst. destruct s as [w fb].
    apply schedulePainting_owned; assumption.
  - inversion H; subst. destruct s as [w fb].
    apply removeRenderingTime_owned; assumption.
  - inversion H; subst. eapply tasks_owned_same; [|exact Hown].
    unfold dispatch_of. simpl. rewrite callback_schedules. reflexivity.
Qed.

Lemma run_owned F isValid l0 ops : forall n s s',
  schedules_consistent (snd s) ->
  counts_below n (snd s) ->
  (n + N.of_nat (length ops) < 2 ^ schedule_bits F)%N ->
  tasks_owned l0 s ->
  run F isValid ops s = Returns s' ->
  tasks_owned l0 s' /\ schedules_consistent (snd s').
Proof.
  induction ops as [|o ops IH]; intros n s s' Hc Hb Hn Hown H; simpl in H.
  - inversion H; subst. auto.
  - destruct (step F isValid o s) as [s1|e] eqn:E; [|discriminate].
    simpl length in Hn.
    destruct (step_consistent F isValid n o s s1 Hc Hb) as [Hc1 Hb1];
      [lia | exact E |].
    pose proof (step_owned F isValid l0 o s s1 Hc Hown E) as Hown1.
    apply (IH (n + 1)%N s1 s'); try assumption. lia.
Qed.

(** X9. No scheduled event leaks and none is lost. Starting from an
    instance with an empty schedule table, after every sequence of
    operations too short to exhaust the range of a reference count:
    every handle in the table designates a dispatcher event that is not
    cancelled and fires with the entry's duration; every event
    registered since the start that is not cancelled is held by the
    entry of its duration, whose count is positive; and the events the
    dispatcher held at the start are untouched. *)
Theorem scheduled_events_owned F isValid ops s s' :
  m_schedules (snd s) = ∅ ->
  (N.of_nat (length ops) < 2 ^ schedule_bits F)%N ->
  run F isValid ops s = Returns s' ->
  (forall (t : N) c h,
     m_schedules (snd s') !! t = Some (c, Some h) ->
     events (fst s') !! h = Some (mkEvent t false)) /\
  (forall i e,
     (length (events (fst s)) <= i)%nat ->
     events (fst s') !! i = Some e ->
     ev_cancelled e = false ->
     exists c, (0 < c)%N /\
               m_schedules (snd s') !! ev_delay e = Some (c, Some i)) /\
  take (length (events (fst s))) (events (fst s')) = events (fst s).
Proof.
  intros Hempty Hlen H.
  destruct (run_owned F isValid (events (fst s)) ops 0%N s s') as [Hown Hcons];
    try assumption.
  - intros t c h. rewrite Hempty, lookup_empty. discriminate.
  - intros t c h. rewrite Hempty, lookup_empty. discriminate.
  - destruct s as [w fb]. apply tasks_owned_start, Hempty.
  - destruct Hown as (Htake & _ & _ & Halive & Hlive).
    split; [exact Halive|]. split; [|exact Htake].
    intros i e Hi He Hc. destruct (Hlive i e Hi He Hc) as [c Hm].
    exists c. split; [|exact Hm]. apply (Hcons _ _ _ Hm). discriminate.
Qed.

Lemma scheduled_events_owned_witness :
  events (fst (removeRenderingTime sample_features 100
                 (schedulePainting sample_features 100 (sample_world, sample_fb))))
  = [mkEvent 100 true] /\
  take 0 (events (fst (removeRenderingTime sample_features 100
                 (schedulePainting sample_features 100 (sample_world, sample_fb)))))
  = [].
Proof.
  split; [reflexivity|].
  apply (scheduled_events_owned sample_features sample_isValid
           [op_schedulePainting 100; op_removeRenderingTime 100]
           (sample_world, sample_fb)
           (removeRenderingTime sample_features 100
              (schedulePainting sample_features 100 (sample_world, sample_fb)))).
  - reflexivity.
  - vm_compute. reflexivity.
  - reflexivity.
Defined.

(** ** Two instances: nesting *)

Lemma bind_keeps_texture : preserves (fun s => m_texture (snd s)) bind.
Proof.
  unfold bind, emit. frame; try reflexivity.
Qed.

Lemma bind_keeps_driver : preserves (fun s => fbo_complete (fst s)) bind.
Proof. unfold bind, emit. frame; reflexivity. Qed.

(** X10. Binding nests. For two resized instances with different GPU
    targets, the first not yet bound: binding the first and then the
    second makes the second's handle the global identifier; releasing
    the first at that point fails its assertion; releasing the second
    brings the first's handle back, and releasing the first then brings
    back what was bound before the first [bind]. *)
Theorem nested_bind_release F w A B :
  m_texture A <> None ->
  m_texture B <> None ->
  m_fbo A <> 0%N ->
  m_fbo B <> 0%N ->
  m_fbo A <> m_fbo B ->
  boundFbo w <> m_fbo A ->
  exists sA sB sB' sA',
    exec bind (w, A) = Returns sA /\
    boundFbo (fst sA) = m_fbo A /\
    exec bind (fst sA, B) = Returns sB /\
    boundFbo (fst sB) = m_fbo B /\
    exec (release F) (fst sB, snd sA) = Aborts AssertionFailure /\
    exec (release F) sB = Returns sB' /\
    boundFbo (fst sB') = m_fbo A /\
    exec (release F) (fst sB', snd sA) = Returns sA' /\
    boundFbo (fst sA') = boundFbo w.
Proof.
  intros HtA HtB HfA HfB Hne Hb.
  pose proof HfA as HfA'. apply N.eqb_neq in HfA'.
  pose proof HfB as HfB'. apply N.eqb_neq in HfB'.
  destruct (bind_returns w A HtA) as ([wA A1] & EA & (HA1 & HA2 & HA3 & HA4));
    [intros _; exact Hb | intros C; contradiction |].
  simpl in HA1, HA2, HA3, HA4. rewrite HfA' in HA3. specialize (HA4 HfA).
  destruct (bind_returns wA B HtB) as ([wB B1] & EB & (HB1 & HB2 & HB3 & HB4));
    [intros _; rewrite HA3; exact Hne | intros C; contradiction |].
  simpl in HB1, HB2, HB3, HB4. rewrite HfB' in HB3. specialize (HB4 HfB).
  destruct (release_returns F (m_fbo B) (boundFbo wA) (wB, B1))
    as ([wB' B2] & EB' & HB').
  { unfold bound_as. simpl. rewrite HfB'. auto. }
  simpl in HB'.
  destruct (release_returns F (m_fbo A) (boundFbo w) (wB', A1))
    as (sA' & EA' & HA').
  { unfold bound_as. simpl. rewrite HfA'. rewrite HB', HA3. auto. }
  exists (wA, A1), (wB, B1), (wB', B2), sA'. simpl.
  repeat split; try assumption.
  - apply release_mismatch; rewrite HA1; [exact HfA|].
    rewrite HB3. congruence.
  - rewrite HB'. exact HA3.
Qed.

Lemma nested_bind_release_witness :
  exists sA sB sB' sA',
    exec bind (sample_world, fb_with_target 1) = Returns sA /\
    boundFbo (fst sA) = m_fbo (fb_with_target 1) /\
    exec bind (fst sA, fb_with_target 2) = Returns sB /\
    boundFbo (fst sB) = m_fbo (fb_with_target 2) /\
    exec (release sample_features) (fst sB, snd sA) = Aborts AssertionFailure /\
    exec (release sample_features) sB = Returns sB' /\
    boundFbo (fst sB') = m_fbo (fb_with_target 1) /\
    exec (release sample_features) (fst sB', snd sA) = Returns sA' /\
    boundFbo (fst sA') = boundFbo sample_world.
Proof.
  apply (nested_bind_release sample_features sample_world
           (fb_with_target 1) (fb_with_target 2));
    vm_compute; congruence.
Defined.

(** X11. A resize between [bind] and [release] breaks the nesting. For
    two resized instances with different GPU targets: after binding the
    first and then the second, a [resize] of the first to a new valid
    size returns (the first is not the one bound), and it overwrites the
    binding the first remembered. Releasing the second and then the
    first, both of which return, leaves the handle of the second as the
    global identifier instead of what was bound before the first
    [bind]. *)
Theorem resize_inside_nesting_loses_binding F isValid w A B size :
  m_texture A <> None ->
  m_texture B <> None ->
  m_fbo A <> 0%N ->
  m_fbo B <> 0%N ->
  m_fbo A <> m_fbo B ->
  boundFbo w <> m_fbo A ->
  boundFbo w <> m_fbo B ->
  isValid size = true ->
  same_size (m_texture A) size = false ->
  fbo_complete w = true ->
  exists sA sB sA2 sB' sA',
    exec bind (w, A) = Returns sA /\
    exec bind (fst sA, B) = Returns sB /\
    exec (resize isValid size) (fst sB, snd sA) = Returns sA2 /\
    m_prevBoundFbo (snd sA2) = m_fbo B /\
    exec (release F) (fst sA2, snd sB) = Returns sB' /\
    exec (release F) (fst sB', snd sA2) = Returns sA' /\
    boundFbo (fst sA') = m_fbo B /\
    boundFbo (fst sA') <> boundFbo w.
Proof.
  intros HtA HtB HfA HfB Hne Hb HbB Hv Hs Hc.
  pose proof HfA as HfA'. apply N.eqb_neq in HfA'.
  pose proof HfB as HfB'. apply N.eqb_neq in HfB'.
  destruct (bind_returns w A HtA) as ([wA A1] & EA & (HA1 & HA2 & HA3 & HA4));
    [intros _; exact Hb | intros C; contradiction |].
  simpl in HA1, HA2, HA3, HA4. rewrite HfA' in HA3. specialize (HA4 HfA).
  pose proof (preserves_exec _ _ _ _ bind_keeps_texture EA) as HtA1.
  pose proof (preserves_exec _ _ _ _ bind_keeps_driver EA) as HcA.
  simpl in HtA1, HcA.
  destruct (bind_returns wA B HtB) as ([wB B1] & EB & (HB1 & HB2 & HB3 & HB4));
    [intros _; rewrite HA3; exact Hne | intros C; contradiction |].
  simpl in HB1, HB2, HB3, HB4. rewrite HfB' in HB3. specialize (HB4 HfB).
  pose proof (preserves_exec _ _ _ _ bind_keeps_driver EB) as HcB.
  simpl in HcB.
  destruct (resize_real isValid size wB A1 Hv)
    as ([w2 A2] & E2 & (Ht2 & Eb2 & Ef2 & _) & _ & Ep2).
  { rewrite HtA1. exact Hs. }
  { rewrite HA1. exact HfA. }
  { rewrite HB3, HA1. congruence. }
  { rewrite HcB, HcA. exact Hc. }
  simpl in Ht2, Eb2, Ef2, Ep2.
  destruct (release_returns F (m_fbo B) (m_fbo A) (w2, B1))
    as ([wB' B2] & EB' & HB').
  { unfold bound_as. simpl. rewrite HfB', Eb2, HB4, HA3. auto. }
  simpl in HB'.
  destruct (release_returns F (m_fbo A) (m_fbo B) (wB', A2))
    as (sA' & EA' & HA').
  { unfold bound_as. simpl. rewrite HfA', Ef2, Ep2, HB', HA1, HB3.
    repeat split; auto. intros En. rewrite En in Ht2. discriminate. }
  exists (wA, A1), (wB, B1), (w2, A2), (wB', B2), sA'. simpl.
  repeat split; try assumption.
  - apply (exec_returns _ _ _ _ E2).
  - rewrite Ep2. exact HB3.
  - rewrite HA'. congruence.
Qed.

Lemma resize_inside_nesting_loses_binding_witness :
  exists sA sB sA2 sB' sA',
    exec bind (sample_world, fb_with_target 1) = Returns sA /\
    exec bind (fst sA, fb_with_target 2) = Returns sB /\
    exec (resize sample_isValid (mkSize 32 32)) (fst sB, snd sA) = Returns sA2 /\
    m_prevBoundFbo (snd sA2) = m_fbo (fb_with_target 2) /\
    exec (release sample_features) (fst sA2, snd sB) = Returns sB' /\
    exec (release sample_features) (fst sB', snd sA2) = Returns sA' /\
    boundFbo (fst sA') = m_fbo (fb_with_target 2) /\
    boundFbo (fst sA') <> boundFbo sample_world.
Proof.
  apply (resize_inside_nesting_loses_binding sample_features sample_isValid
           sample_world (fb_with_target 1) (fb_with_target 2) (mkSize 32 32));
    vm_compute; congruence.
Defined.

(** ** Without GPU target: the screen is saved and put back *)

Lemma bind_without_target w fb t b :
  m_fbo fb = 0%N -> m_backuping fb = true ->
  m_texture fb = Some t -> m_screenBackup fb = Some b ->
  exec bind (w, fb) =
  Returns (log (setResolution (tex_size t))
             (log (tex_copyFromScreen (tex_id b) (screen_rect w t))
                (log saveAndResetState w)),
           set_screenBackup (Some (copyFromScreen (screen_rect w t) b)) fb).
Proof.
  intros Hf Hk Ht Hb. unfold screen_rect.
  destruct w, fb. simpl in *. subst. reflexivity.
Qed.

(** X12. On an instance without GPU target that backs the screen up,
    with both textures allocated, [bind] followed by [release] returns,
    and one and the same screen region, the texture size cut to the
    window, is used throughout: [bind] captures it into the backup
    texture, [release] captures it into the backing texture and then
    draws the backup texture, holding that capture, back onto it, with
    blending switched off for just that draw, between the painter's save
    and restore. The global identifier is not touched. *)
Theorem backup_saves_and_restores_screen F w fb t b :
  m_fbo fb = 0%N ->
  m_backuping fb = true ->
  m_texture fb = Some t ->
  m_screenBackup fb = Some b ->
  let R := screen_rect w t in
  exists s1 s2,
    exec bind (w, fb) = Returns s1 /\
    exec (release F) s1 = Returns s2 /\
    m_screenBackup (snd s2) = Some (copyFromScreen R b) /\
    m_texture (snd s2) = Some (copyFromScreen R t) /\
    trace (fst s2) =
      [restoreSavedState;
       glEnable_BLEND;
       drawTexturedRect R (Some (copyFromScreen R b)) R;
       resetColor;
       glDisable_BLEND;
       tex_copyFromScreen (tex_id t) R;
       setResolution (tex_size t);
       tex_copyFromScreen (tex_id b) R;
       saveAndResetState] ++ trace w /\
    boundFbo (fst s2) = boundFbo w.
Proof.
  intros Hf Hk Ht Hb R. subst R.
  eexists. eexists.
  split; [apply (bind_without_target w fb t b); assumption|].
  split.
  { apply (release_without_target F _ _ t); simpl; assumption. }
  unfold after_release, screen_rect. simpl. rewrite Hk.
  destruct (scheduling_compiled F); simpl; auto.
Qed.

Lemma backup_saves_and_restores_screen_witness :
  exists s1 s2,
    exec bind (sample_world, fb_backup) = Returns s1 /\
    exec (release sample_features) s1 = Returns s2 /\
    m_screenBackup (snd s2)
    = Some (copyFromScreen (mkRect 0 0 (mkSize 64 64))
              (setUpsideDown true (Texture_new 4 (mkSize 64 64)))) /\
    boundFbo (fst s2) = 0%N.
Proof.
  destruct (backup_saves_and_restores_screen sample_features sample_world
              fb_backup (texture_64 3)
              (setUpsideDown true (Texture_new 4 (mkSize 64 64)))
              eq_refl eq_refl eq_refl eq_refl)
    as (s1 & s2 & E1 & E2 & Hb & _ & _ & Hbound).
  exists s1, s2. auto.
Defined.

(** ** The three draws *)

(** X13. The overloads of [draw] relate as follows: [draw()] is
    [draw(dest, src)] with both rectangles the full rectangle of the
    instance, and [draw(dest)] is [draw(dest, src)] with that rectangle
    as source, where the full rectangle has the size of the texture
    (with a GPU target) or that size cut to the window (without). With
    the drawable flag off all three return without any effect, texture
    or not. *)
Theorem draw_overloads w fb :
  (forall t, m_texture fb = Some t ->
     let R := if (m_fbo fb =? 0)%N then screen_rect w t
              else mkRect 0 0 (tex_size t) in
     exec draw (w, fb) = exec (draw_dest_src R R) (w, fb) /\
     forall dest,
       exec (draw_dest dest) (w, fb) = exec (draw_dest_src dest R) (w, fb)) /\
  (m_drawable fb = false ->
   exec draw (w, fb) = Returns (w, fb) /\
   (forall dest, exec (draw_dest dest) (w, fb) = Returns (w, fb)) /\
   (forall dest src, exec (draw_dest_src dest src) (w, fb) = Returns (w, fb))).
Proof.
  split.
  - intros t Ht R. subst R. unfold screen_rect.
    destruct w, fb. simpl in *. subst.
    destruct m_drawable0, (m_fbo0 =? 0)%N eqn:Ef; split; try intros dest;
      unfold_m; cbn -[N.eqb]; rewrite ?Ef; reflexivity.
  - intros Hd. destruct w, fb. simpl in *. subst.
    repeat split.
Qed.

(** ** The global identifier follows GL *)

Lemma keeps_ret {A} P (a : A) : keeps P (ret a).
Proof. intros s a' s' HP H. inversion H; subst. exact HP. Qed.

Lemma keeps_abort {A} P e : keeps P (@abort A e).
Proof. intros s a s' HP H. discriminate. Qed.

Lemma keeps_bind {A B} P (m : M A) (k : A -> M B) :
  keeps P m -> (forall a, keeps P (k a)) -> keeps P (bind_ m k).
Proof.
  intros Hm Hk s b s' HP H. unfold bind_ in H.
  destruct (m s) as [[a s1]|e] eqn:E; [|discriminate].
  apply (Hk a s1 b s'); [|exact H]. apply (Hm s a s1 HP E).
Qed.

Lemma keeps_getW P : keeps P getW.
Proof. intros s a s' HP H. inversion H; subst. exact HP. Qed.

Lemma keeps_getF P : keeps P getF.
Proof. intros s a s' HP H. inversion H; subst. exact HP. Qed.

Lemma keeps_assert P b : keeps P (assert b).
Proof. destruct b; [apply keeps_ret | apply keeps_abort]. Qed.

Lemma keeps_deref {A} P (p : option A) : keeps P (deref p).
Proof. destruct p; [apply keeps_ret | apply keeps_abort]. Qed.

Lemma synced_modF g : keeps synced (modF g).
Proof. intros [w fb] a s' HP H. inversion H; subst. exact HP. Qed.

Lemma synced_next_texture n : keeps synced (modW (set_next_texture n)).
Proof. intros [w fb] a s' HP H. inversion H; subst. exact HP. Qed.

(** A call other than [glBindFramebuffer] does not move GL's binding. *)
Lemma synced_emit c :
  (forall f, c <> glBindFramebuffer f) -> keeps synced (emit c).
Proof.
  intros Hc [w fb] a s' HP H. inversion H; subst.
  unfold synced, in_sync in *. simpl in *.
  destruct c; try exact HP. destruct (Hc fbo). reflexivity.
Qed.

(** The two places that call [glBindFramebuffer] set [boundFbo] to the
    same handle. *)
Lemma synced_bind_step f g :
  keeps synced
    (bind_ (emit (glBindFramebuffer f))
       (fun _ => bind_ (modF g) (fun _ => modW (set_boundFbo f)))).
Proof.
  intros [w fb] a s' _ H. inversion H; subst.
  unfold synced, in_sync. simpl. intros b E. inversion E. reflexivity.
Qed.

Lemma synced_release_step f :
  keeps synced
    (bind_ (emit (glBindFramebuffer f)) (fun _ => modW (set_boundFbo f))).
Proof.
  intros [w fb] a s' _ H. inversion H; subst.
  unfold synced, in_sync. simpl. intros b E. inversion E. reflexivity.
Qed.

Ltac sync :=
  repeat first
    [ apply synced_bind_step
    | apply synced_release_step
    | apply keeps_ret
    | apply keeps_abort
    | apply keeps_getW
    | apply keeps_getF
    | apply keeps_assert
    | apply keeps_deref
    | apply synced_modF
    | apply synced_next_texture
    | apply synced_emit; intros ?; discriminate
    | apply keeps_bind; [|intros ?]
    | match goal with
      | |- keeps _ (if ?b then _ else _) => destruct b
      | |- keeps _ (let _ := _ in _) => cbv zeta
      end ].

Lemma getSize_synced : keeps synced getSize.
Proof. unfold getSize. sync. Qed.

Lemma internalBind_synced : keeps synced internalBind.
Proof. unfold internalBind. sync. Qed.

Lemma internalRelease_synced : keeps synced internalRelease.
Proof. unfold internalRelease. sync. Qed.

Lemma resize_synced isValid size : keeps synced (resize isValid size).
Proof. unfold resize, newTexture. sync. Qed.

Lemma bind_synced : keeps synced bind.
Proof. unfold bind. sync. Qed.

Lemma release_synced F : keeps synced (release F).
Proof. unfold release. sync. Qed.

Lemma draw_synced : keeps synced draw.
Proof. unfold draw. sync. Qed.

Lemma draw_dest_synced dest : keeps synced (draw_dest dest).
Proof. unfold draw_dest. sync. Qed.

Lemma draw_dest_src_synced dest src : keeps synced (draw_dest_src dest src).
Proof. unfold draw_dest_src. sync. Qed.

Lemma keeps_exec {A} P (m : M A) s s' :
  keeps P m -> P s -> exec m s = Returns s' -> P s'.
Proof.
  intros Hk HP H. unfold exec in H.
  destruct (m s) as [[a s1]|e] eqn:E; [|discriminate].
  inversion H; subst. apply (Hk s a s' HP E).
Qed.

Lemma schedulePainting_gl F d s :
  boundFbo (fst (schedulePainting F d s)) = boundFbo (fst s) /\
  trace (fst (schedulePainting F d s)) = trace (fst s).
Proof.
  destruct s as [w fb]. unfold schedulePainting.
  destruct (negb (scheduling_compiled F) || negb (m_schedulePaintingEnabled fb));
    [auto|].
  destruct (d =? 0)%N; [auto|].
  destruct (Z.of_N d =? FORCE_UPDATE F); [auto|].
  destruct (Z.of_N d <=? MIN_TIME_UPDATE F); [auto|].
  destruct (fst (schedule_at fb d) =? 0)%N; simpl; auto.
Qed.

Lemma removeRenderingTime_gl F d s :
  boundFbo (fst (removeRenderingTime F d s)) = boundFbo (fst s) /\
  trace (fst (removeRenderingTime F d s)) = trace (fst s).
Proof.
  destruct s as [w fb]. unfold removeRenderingTime.
  destruct (negb (scheduling_compiled F)); [auto|].
  destruct (fst (schedule_at fb d) =? 0)%N; [auto|].
  destruct (wrap (schedule_bits F) (fst (schedule_at fb d) - 1) =? 0)%N;
    [destruct (snd (schedule_at fb d))|]; simpl; auto.
Qed.

Lemma step_synced F isValid o s s' :
  synced s -> step F isValid o s = Returns s' -> synced s'.
Proof.
  intros HP H. destruct o; simpl in H;
    try (inversion H; subst; exact HP).
  - apply (keeps_exec _ _ _ _ (resize_synced isValid size) HP H).
  - apply (keeps_exec _ _ _ _ bind_synced HP H).
  - apply (keeps_exec _ _ _ _ (release_synced F) HP H).
  - apply (keeps_exec _ _ _ _ draw_synced HP H).
  - apply (keeps_exec _ _ _ _ (draw_dest_synced dest) HP H).
  - apply (keeps_exec _ _ _ _ (draw_dest_src_synced dest src) HP H).
  - apply (keeps_exec _ _ _ _ getSize_synced HP H).
  - inversion H; subst. unfold synced, in_sync in *.
    destruct (schedulePainting_gl F time s) as [-> ->]. exact HP.
  - inversion H; subst. unfold synced, in_sync in *.
    destruct (removeRenderingTime_gl F time s) as [-> ->]. exact HP.
Qed.

(** X14. The global identifier follows GL. If [boundFbo] is the handle
    last passed to [glBindFramebuffer] (or no such call has been made
    yet), it still is after every sequence of operations that returns:
    every call of [glBindFramebuffer] in [bind], [release] and [resize]
    comes with the matching update of [boundFbo], and nothing else binds
    a framebuffer or writes [boundFbo]. *)
Theorem boundFbo_follows_gl F isValid ops s s' :
  in_sync (fst s) ->
  run F isValid ops s = Returns s' ->
  in_sync (fst s').
Proof.
  revert s. induction ops as [|o ops IH]; intros s HP H; simpl in H.
  - inversion H; subst. exact HP.
  - destruct (step F isValid o s) as [s1|e] eqn:E; [|discriminate].
    apply (IH s1); [|exact H].
    apply (step_synced F isValid o s s1 HP E).
Qed.

Lemma boundFbo_follows_gl_witness :
  exists s',
    run sample_features sample_isValid
        [op_resize (mkSize 64 64); op_bind; op_draw; op_release]
        (sample_world, sample_fb) = Returns s' /\
    boundFbo (fst s') = 0%N.
Proof.
  eexists. split; [vm_compute; reflexivity|].
  eapply (boundFbo_follows_gl sample_features sample_isValid
            [op_resize (mkSize 64 64); op_bind; op_draw; op_release]
            (sample_world, sample_fb)).
  - intros b E. discriminate.
  - vm_compute. reflexivity.
  - vm_compute. reflexivity.
Defined.

(** ** A whole life cycle *)

Lemma internalCreate_with_gl_name w fb :
  canUseFBO w = true -> next_fbo w <> 0%N ->
  exec internalCreate (w, fb)
  = Returns (set_next_fbo (next_fbo w + 1) (log (glGenFramebuffers (next_fbo w)) w),
             set_fbo (next_fbo w) (set_requestAmount 0 (set_prevBoundFbo 0 fb))).
Proof.
  intros Hc Hn. apply N.eqb_neq in Hn.
  destruct w, fb. simpl in *. subst.
  unfold_m. unfold internalCreate, bind_, modF, modW, getW, emit.
  cbn -[N.eqb N.add]. rewrite Hn. reflexivity.
Qed.

Lemma internalCreate_fatal w fb :
  canUseFBO w = true -> next_fbo w = 0%N ->
  exec internalCreate (w, fb) = Aborts FatalError.
Proof.
  intros Hc Hn. destruct w, fb. simpl in *. subst. reflexivity.
Qed.

Lemma draw_returns w fb :
  m_texture fb <> None ->
  exists s', exec draw (w, fb) = Returns s'.
Proof.
  intros Ht. destruct w, fb. simpl in *.
  destruct m_texture0 as [t|]; [|contradiction].
  destruct m_drawable0, (m_fbo0 =? 0)%N eqn:Ef;
    (eexists; unfold_m; cbn -[N.eqb]; rewrite ?Ef; reflexivity).
Qed.

(** X15. The usual life cycle runs through. Construction of an
    instance ends in a fatal error exactly when off-screen targets are
    available and GL hands out the name 0. On a new instance (no textures
    yet), created where either off-screen targets are not available or GL
    hands out a nonzero name that is not the one currently bound and the
    driver accepts the attachment: construction, a [resize] to a valid
    size, [bind], [draw()] and [release] all return. Afterwards the
    texture has the requested size, the global identifier is what it was
    before, and the instance has the handle construction gave it: the GL
    name with off-screen targets, 0 without. *)
Theorem life_cycle_returns F isValid w fb size :
  m_texture fb = None ->
  isValid size = true ->
  (exec internalCreate (w, fb) = Aborts FatalError <->
   canUseFBO w = true /\ next_fbo w = 0%N) /\
  ((canUseFBO w = true ->
    next_fbo w <> 0%N /\ boundFbo w <> next_fbo w /\ fbo_complete w = true) ->
   exists s0 s',
     exec internalCreate (w, fb) = Returns s0 /\
     m_fbo (snd s0) = (if canUseFBO w then next_fbo w else 0%N) /\
     run F isValid [op_resize size; op_bind; op_draw; op_release] s0
     = Returns s' /\
     tex_size <$> m_texture (snd s') = Some size /\
     m_fbo (snd s') = m_fbo (snd s0) /\
     boundFbo (fst s') = boundFbo w).
Proof.
  intros Ht Hv.
  split.
  { split.
    - intros H. destruct (canUseFBO w) eqn:Hc.
      + split; [reflexivity|].
        destruct (N.eq_dec (next_fbo w) 0%N) as [Hn|Hn]; [exact Hn|].
        rewrite (internalCreate_with_gl_name w fb Hc Hn) in H. discriminate.
      + rewrite (internalCreate_without_target w fb Hc) in H. discriminate.
    - intros [Hc Hn]. apply internalCreate_fatal; assumption. }
  intros Hgl.
  (* construction *)
  assert (Hcreate : exists w0 fb0,
            exec internalCreate (w, fb) = Returns (w0, fb0) /\
            m_fbo fb0 = (if canUseFBO w then next_fbo w else 0%N) /\
            m_texture fb0 = None /\
            boundFbo w0 = boundFbo w /\
            fbo_complete w0 = fbo_complete w /\
            (m_fbo fb0 <> 0%N -> boundFbo w0 <> m_fbo fb0 /\ fbo_complete w0 = true)).
  { destruct (canUseFBO w) eqn:Hc.
    - destruct (Hgl eq_refl) as (Hn & Hb & Hcomp).
      eexists. eexists.
      split; [apply internalCreate_with_gl_name; assumption|].
      simpl. auto 10.
    - eexists. eexists.
      split; [apply internalCreate_without_target; assumption|].
      simpl. repeat split; auto; intros C; contradiction. }
  destruct Hcreate as (w0 & fb0 & E0 & Hf0 & Ht0 & Hb0 & Hc0 & Hnb).
  (* resize *)
  assert (Hs : same_size (m_texture fb0) size = false) by (rewrite Ht0; reflexivity).
  assert (Hresize : exists w1 fb1,
            exec (resize isValid size) (w0, fb0) = Returns (w1, fb1) /\
            resized size (w0, fb0) (w1, fb1) /\
            (m_fbo fb0 = 0%N -> m_backuping fb1 = true ->
             m_screenBackup fb1 <> None)).
  { destruct (N.eq_dec (m_fbo fb0) 0%N) as [Hz|Hnz].
    - destruct (resize_backup isValid size w0 fb0 Hv Hs Hz)
        as ([w1 fb1] & E & R & _ & Hbk).
      exists w1, fb1. split; [apply (exec_returns _ _ _ _ E)|].
      split; [exact R|]. intros _ Hk.
      destruct R as (_ & _ & _ & _ & Rk). simpl in Rk, Hbk. rewrite Rk in Hk.
      specialize (Hbk Hk). intros En. rewrite En in Hbk. discriminate.
    - destruct (Hnb Hnz) as [Hb Hcomp].
      destruct (resize_real isValid size w0 fb0 Hv Hs Hnz Hb Hcomp)
        as ([w1 fb1] & E & R & _).
      exists w1, fb1. split; [apply (exec_returns _ _ _ _ E)|].
      split; [exact R|]. intros C. contradiction. }
  destruct Hresize as (w1 & fb1 & E1 & (Rt & Rb & Rf & Rc & Rk) & Hbk).
  simpl in Rt, Rb, Rf, Rc, Rk.
  assert (Ht1 : m_texture fb1 <> None)
    by (intros En; rewrite En in Rt; discriminate).
  (* bind, draw, release *)
  destruct (bind_returns w1 fb1 Ht1) as (s2 & E2 & B2).
  { intros Hnz. rewrite Rf in Hnz |- *. rewrite Rb. apply (Hnb Hnz). }
  { intros Hz. apply Hbk. rewrite <- Rf. exact Hz. }
  destruct s2 as [w2 fb2].
  destruct (draw_returns w2 fb2) as (s3 & E3); [apply B2|].
  assert (B3 : bound_as (m_fbo fb1) (boundFbo w1) s3).
  { apply (inner_step F isValid _ _ op_draw (w2, fb2) s3 I B2 E3). }
  destruct (release_returns F _ _ s3 B3) as (s4 & E4 & Hb4).
  exists (w0, fb0), s4. simpl.
  rewrite E1, E2, E3, E4.
  split; [exact E0|]. split; [exact Hf0|]. split; [reflexivity|].
  assert (Hkeep : m_fbo (snd s4) = m_fbo fb1 /\
                  tex_size <$> m_texture (snd s4) = Some size).
  { destruct B3 as (Hf3 & Ht3 & Hbd3 & _).
    pose proof (preserves_exec _ _ _ _ bind_keeps_texture E2) as Kt2.
    pose proof (preserves_exec binding_of _ _ _ draw_binding E3) as K3.
    pose proof (f_equal snd K3) as K3t. simpl in K3t, Kt2.
    destruct s3 as [w3 fb3]. simpl in *.
    destruct (N.eq_dec (m_fbo fb3) 0%N) as [Hz|Hnz].
    - destruct (m_texture fb3) as [t|] eqn:Et3; [|contradiction].
      rewrite (release_without_target F w3 fb3 t Hz Et3) in E4.
      inversion E4; subst. unfold after_release.
      rewrite <- Rt, <- Kt2, <- K3t.
      destruct (scheduling_compiled F); simpl; auto.
    - assert (Hb3 : boundFbo w3 = m_fbo fb3).
      { rewrite Hbd3, Hf3. rewrite Hf3 in Hnz.
        apply N.eqb_neq in Hnz. rewrite Hnz. reflexivity. }
      rewrite (release_with_target F w3 fb3 Hnz Hb3) in E4.
      inversion E4; subst. unfold after_release.
      rewrite <- Rt, <- Kt2, <- K3t.
      destruct (scheduling_compiled F); simpl; auto. }
  destruct Hkeep as (Kf & Ks).
  split; [exact Ks|]. split; [congruence|].
  rewrite Hb4, Rb. exact Hb0.
Qed.

Lemma life_cycle_returns_witness :
  (exec internalCreate (set_next_fbo 0 sample_world, sample_fb)
   = Aborts FatalError) /\
  exists s0 s',
    exec internalCreate (sample_world, sample_fb) = Returns s0 /\
    m_fbo (snd s0) = 1%N /\
    run sample_features sample_isValid
        [op_resize (mkSize 64 64); op_bind; op_draw; op_release] s0
    = Returns s' /\
    tex_size <$> m_texture (snd s') = Some (mkSize 64 64) /\
    m_fbo (snd s') = m_fbo (snd s0) /\
    boundFbo (fst s') = boundFbo sample_world.
Proof.
  split.
  - apply (life_cycle_returns sample_features sample_isValid
             (set_next_fbo 0 sample_world) sample_fb (mkSize 64 64));
      [reflexivity | reflexivity | split; reflexivity].
  - apply (life_cycle_returns sample_features sample_isValid sample_world
             sample_fb (mkSize 64 64)).
    + reflexivity.
    + reflexivity.
    + intros _. repeat split; vm_compute; congruence.
Defined.

(** * Nested bindings across instances *)

(** ** What one operation does to the binding *)

Lemma bind_returned w fb s1 :
  exec bind (w, fb) = Returns s1 ->
  bound_as (m_fbo fb) (boundFbo w) s1.
Proof.
  intros H.
  destruct (bind_returns w fb) as (s1' & E & B).
  - intros Ht. revert H. destruct w, fb. simpl in *. subst.
    unfold_m. cbn -[N.eqb].
    destruct (m_fbo0 =? 0)%N eqn:Ef; cbn -[N.eqb].
    + destruct m_backuping0;
        repeat (progress (cbn -[N.eqb]; rewrite ?Ef)); discriminate.
    + destruct (boundFbo0 =? m_fbo0)%N; cbn -[N.eqb]; discriminate.
  - intros Hf Hb. revert H.
    unfold exec, bind, bind_. unfold emit at 1. unfold modW.
    cbn [fst snd].
    rewrite internalBind_self; [discriminate | exact Hf |].
    simpl. congruence.
  - intros Hf Hk Hs. revert H. destruct w, fb. simpl in *. subst.
    unfold_m. cbn -[N.eqb].
    destruct m_texture0; discriminate.
  - rewrite E in H. inversion H; subst. exact B.
Qed.

Lemma release_returned F w fb s1 :
  exec (release F) (w, fb) = Returns s1 ->
  m_fbo (snd s1) = m_fbo fb /\
  (m_fbo fb <> 0%N -> boundFbo (fst s1) = m_prevBoundFbo fb) /\
  (m_fbo fb = 0%N -> boundFbo (fst s1) = boundFbo w).
Proof.
  intros H.
  destruct (N.eq_dec (m_fbo fb) 0%N) as [Hf|Hf].
  - destruct (m_texture fb) as [t|] eqn:Ht.
    + rewrite (release_without_target F w fb t Hf Ht) in H.
      inversion H; subst. unfold after_release. simpl. split.
      { destruct (scheduling_compiled F); reflexivity. }
      split; [contradiction|]. intros _.
      destruct (m_backuping fb); reflexivity.
    + rewrite (release_null F w fb Hf Ht) in H. discriminate.
  - destruct (N.eq_dec (boundFbo w) (m_fbo fb)) as [Hb|Hb].
    + rewrite (release_with_target F w fb Hf Hb) in H.
      inversion H; subst. unfold after_release. simpl. split.
      { destruct (scheduling_compiled F); reflexivity. }
      split; [reflexivity | contradiction].
    + rewrite (release_mismatch F w fb Hf Hb) in H. discriminate.
Qed.

(** A [resize] that returns has put the identifier back; it has
    overwritten the binding the instance remembered only if the instance
    owns a GPU target that was not the one bound. *)
Lemma resize_returned isValid size w fb s1 :
  exec (resize isValid size) (w, fb) = Returns s1 ->
  m_fbo (snd s1) = m_fbo fb /\
  boundFbo (fst s1) = boundFbo w /\
  (m_prevBoundFbo (snd s1) = m_prevBoundFbo fb \/
   (m_fbo fb <> 0%N /\ boundFbo w <> m_fbo fb)).
Proof.
  intros H. unfold exec in H.
  destruct (isValid size) eqn:Hv;
    [|rewrite resize_invalid in H by assumption; discriminate].
  destruct (same_size (m_texture fb) size) eqn:Hs.
  { rewrite resize_same in H by assumption. inversion H; subst. simpl. auto. }
  destruct (N.eq_dec (m_fbo fb) 0%N) as [Hf|Hf].
  { destruct (resize_backup isValid size w fb Hv Hs Hf)
      as (s' & E & (_ & Eb & Ef & _) & Ep & _).
    rewrite E in H. inversion H; subst. auto. }
  destruct (N.eq_dec (boundFbo w) (m_fbo fb)) as [Hb|Hb].
  { rewrite resize_while_bound in H by assumption. discriminate. }
  destruct (fbo_complete w) eqn:Hc.
  - destruct (resize_real isValid size w fb Hv Hs Hf Hb Hc)
      as (s' & E & (_ & Eb & Ef & _) & _).
    rewrite E in H. inversion H; subst. auto.
  - rewrite resize_incomplete in H by assumption. discriminate.
Qed.

(** The other operations neither read nor write the binding. *)
Lemma other_returned F isValid o s s1 :
  o <> op_bind -> o <> op_release -> (forall size, o <> op_resize size) ->
  step F isValid o s = Returns s1 ->
  binding_of s1 = binding_of s.
Proof.
  intros Hb Hr Hz H. destruct o; simpl in H; try congruence.
  - apply (preserves_exec binding_of _ _ _ draw_binding H).
  - apply (preserves_exec binding_of _ _ _ (draw_dest_binding dest) H).
  - apply (preserves_exec binding_of _ _ _ (draw_dest_src_binding dest src) H).
  - apply (preserves_exec binding_of _ _ _ getSize_binding H).
  - inversion H; subst. destruct s. apply update_binding.
  - inversion H; subst. apply schedulePainting_binding.
  - inversion H; subst. apply removeRenderingTime_binding.
  - inversion H; subst. destruct s. apply callback_binding.
Qed.

(** ** The stack of open bindings *)

Lemma insert_fbo (fbs : nat -> FrameBuffer) i fb' :
  m_fbo fb' = m_fbo (fbs i) ->
  forall k, m_fbo ((<[i := fb']> fbs) k) = m_fbo (fbs k).
Proof.
  intros H k. destruct (decide (i = k)) as [->|Hne].
  - rewrite fn_lookup_insert. exact H.
  - rewrite fn_lookup_insert_ne by exact Hne. reflexivity.
Qed.

Lemma innermost_same b0 (f g : nat -> FrameBuffer) open :
  (forall k, m_fbo (f k) = m_fbo (g k)) ->
  innermost b0 f open = innermost b0 g open.
Proof.
  intros H. induction open as [|i open IH]; simpl; [reflexivity|].
  rewrite H, IH. reflexivity.
Qed.

Lemma remembered_insert b0 (fbs : nat -> FrameBuffer) i fb' open :
  m_fbo fb' = m_fbo (fbs i) ->
  (i ∈ open -> m_fbo (fbs i) <> 0%N ->
   m_prevBoundFbo fb' = m_prevBoundFbo (fbs i)) ->
  remembered b0 fbs open ->
  remembered b0 (<[i := fb']> fbs) open.
Proof.
  intros Hf Hp. induction open as [|j open IH]; simpl; [auto|].
  intros [Hj Hrest]. split.
  - rewrite (innermost_same b0 _ fbs open (insert_fbo fbs i fb' Hf)).
    destruct (decide (i = j)) as [->|Hne].
    + rewrite fn_lookup_insert. intros Hnz. rewrite Hf in Hnz.
      rewrite Hp; [auto | left | exact Hnz].
    + rewrite fn_lookup_insert_ne by exact Hne. exact Hj.
  - apply IH; [|exact Hrest]. intros Hin. apply Hp. right. exact Hin.
Qed.

Lemma opens_cons open i o tr st :
  opens open ((i, o) :: tr) = Some st ->
  exists mid, opens open [(i, o)] = Some mid /\ opens mid tr = Some st.
Proof.
  simpl. destruct o; try (intros H; eexists; split; [reflexivity | exact H]).
  - destruct (decide (i ∈ tail open)); [discriminate|].
    intros H; eexists; split; [reflexivity | exact H].
  - destruct (decide (i ∈ open)); [discriminate|].
    intros H; eexists; split; [reflexivity | exact H].
  - destruct open as [|j open']; [discriminate|].
    destruct (decide (i = j)); [|discriminate].
    intros H; eexists; split; [reflexivity | exact H].
Qed.

(** One properly paired call keeps the invariant and every handle. *)
Lemma step_nested F isValid b0 i o open open' s s' :
  nested b0 open s ->
  opens open [(i, o)] = Some open' ->
  step_at F isValid i o s = Returns s' ->
  nested b0 open' s' /\ (forall k, m_fbo (snd s' k) = m_fbo (snd s k)).
Proof.
  intros (Hnd & Hb & Hrem) Ho H. destruct s as [w fbs].
  unfold step_at in H. cbn [fst snd] in *.
  destruct (step F isValid o (w, fbs i)) as [[w1 fb1]|e] eqn:E; [|discriminate].
  inversion H; subst s'. clear H. cbn [fst snd].
  assert (Hgen : binding_of (w1, fb1) = binding_of (w, fbs i) ->
                 open' = open ->
                 nested b0 open' (w1, <[i := fb1]> fbs) /\
                 (forall k, m_fbo ((<[i := fb1]> fbs) k) = m_fbo (fbs k))).
  { intros Eb ->. unfold binding_of in Eb. cbn [fst snd] in Eb.
    inversion Eb as [[E1 E2 E3 E4]].
    pose proof (insert_fbo fbs i fb1 E2) as Hfbo.
    split; [|exact Hfbo]. split; [exact Hnd|]. cbn [fst snd]. split.
    - rewrite E1, Hb. symmetry. apply innermost_same, Hfbo.
    - apply remembered_insert; auto. }
  destruct o;
    try (apply Hgen;
         [ refine (other_returned F isValid _ _ _ _ _ _ E); discriminate
         | simpl in Ho; congruence ]).
  - (* resize *)
    simpl in Ho. destruct (decide (i ∈ tail open)) as [|Hnot]; [discriminate|].
    inversion Ho; subst open'. simpl in E.
    destruct (resize_returned isValid size w (fbs i) _ E) as (Ef & Ebd & Ep).
    cbn [fst snd] in Ef, Ebd, Ep.
    pose proof (insert_fbo fbs i fb1 Ef) as Hfbo.
    split; [|exact Hfbo]. split; [exact Hnd|]. cbn [fst snd]. split.
    + rewrite Ebd, Hb. symmetry. apply innermost_same, Hfbo.
    + apply remembered_insert; [exact Ef | | exact Hrem].
      intros Hin Hnz. destruct Ep as [Ep|[_ Hne]]; [exact Ep|].
      exfalso. apply Hne. rewrite Hb.
      destruct open as [|j open0]; [inversion Hin|].
      simpl in Hnot. apply elem_of_cons in Hin.
      destruct Hin as [->|Hin]; [|contradiction].
      simpl. apply N.eqb_neq in Hnz. rewrite Hnz. reflexivity.
  - (* bind *)
    simpl in Ho. destruct (decide (i ∈ open)) as [|Hnot]; [discriminate|].
    inversion Ho; subst open'. simpl in E.
    destruct (bind_returned w (fbs i) _ E) as (Ef & _ & Ebd & Ep).
    cbn [fst snd] in Ef, Ebd, Ep.
    pose proof (insert_fbo fbs i fb1 Ef) as Hfbo.
    split; [|exact Hfbo]. split; [apply NoDup_cons_2; assumption|]. cbn [fst snd].
    assert (Hin : innermost b0 (<[i := fb1]> fbs) open = boundFbo w).
    { rewrite Hb. apply innermost_same, Hfbo. }
    split.
    + simpl. rewrite fn_lookup_insert, Ef, Hin. exact Ebd.
    + simpl. split.
      * rewrite fn_lookup_insert, Ef, Hin. exact Ep.
      * apply remembered_insert; [exact Ef | | exact Hrem].
        intros C. contradiction.
  - (* release *)
    simpl in Ho. destruct open as [|j open0]; [discriminate|].
    destruct (decide (i = j)) as [<-|]; [|discriminate].
    inversion Ho; subst open'. simpl in E.
    destruct (release_returned F w (fbs i) _ E) as (Ef & Ep & Ez).
    cbn [fst snd] in Ef, Ep, Ez.
    pose proof (insert_fbo fbs i fb1 Ef) as Hfbo.
    pose proof (NoDup_cons_1_1 _ _ Hnd) as Hnot.
    apply NoDup_cons_1_2 in Hnd.
    simpl in Hb, Hrem. destruct Hrem as [Hi Hrem].
    split; [|exact Hfbo]. split; [exact Hnd|]. cbn [fst snd]. split.
    + rewrite (innermost_same b0 _ fbs open0 Hfbo).
      destruct (m_fbo (fbs i) =? 0)%N eqn:Ei.
      * apply N.eqb_eq in Ei. rewrite (Ez Ei). exact Hb.
      * apply N.eqb_neq in Ei. rewrite (Ep Ei). apply Hi, Ei.
    + apply remembered_insert; [exact Ef | | exact Hrem].
      intros C. contradiction.
Qed.

Lemma run_nested F isValid b0 tr : forall open open' s s',
  nested b0 open s ->
  opens open tr = Some open' ->
  run_all F isValid tr s = Returns s' ->
  nested b0 open' s' /\ (forall k, m_fbo (snd s' k) = m_fbo (snd s k)).
Proof.
  induction tr as [|[i o] tr IH]; intros open open' s s' Hn Ho H.
  - simpl in Ho, H. inversion Ho; inversion H; subst. auto.
  - apply opens_cons in Ho. destruct Ho as (mid & Ho1 & Ho2).
    cbn [run_all] in H.
    destruct (step_at F isValid i o s) as [s1|e] eqn:E; [|discriminate].
    destruct (step_nested F isValid b0 i o open mid s s1 Hn Ho1 E) as [Hn1 Hf1].
    destruct (IH mid open' s1 s' Hn1 Ho2 H) as [Hn' Hf'].
    split; [exact Hn'|]. intros k. rewrite Hf', Hf1. reflexivity.
Qed.

(** The invariant, from a state in which no [bind] is open: after
    properly paired calls that return, the global identifier is the
    handle of the innermost open instance with a GPU target, and what it
    was at the start when there is none. No call changes a handle. *)
Lemma identifier_of_innermost F isValid tr open s s' :
  opens [] tr = Some open ->
  run_all F isValid tr s = Returns s' ->
  nested (boundFbo (fst s)) open s' /\
  (forall k, m_fbo (snd s' k) = m_fbo (snd s k)).
Proof.
  intros Ho H.
  apply (run_nested F isValid _ tr [] open s s'); [|exact Ho | exact H].
  split; [constructor|]. split; [reflexivity | exact I].
Qed.

(** C3, as the code has it. Take calls on any number of instances that
    are properly paired: every [release] matches the innermost open
    [bind], no instance is bound again while its [bind] is open, and
    none is resized while another one is bound over it. Let some such
    calls [pre] be followed by a [bind] of the instance [i] and further
    such calls [body], all of which return. Then the global identifier
    is the handle of the innermost instance with a GPU target among
    those whose [bind] is open, and what it was at the very start when
    there is none. In particular, at every point at which [i] is the
    innermost open instance it is the handle of [i], if [i] owns a GPU
    target, and what it was before the [bind] of [i], if not; and
    when the matching [release] returns from such a point, the
    identifier is what it was immediately before the [bind]. *)
Theorem bind_release_global_identifier F isValid pre i body st st1 s s0 s1 :
  opens [] pre = Some st ->
  opens st ((i, op_bind) :: body) = Some st1 ->
  run_all F isValid pre s = Returns s0 ->
  run_all F isValid ((i, op_bind) :: body) s0 = Returns s1 ->
  boundFbo (fst s1) = innermost (boundFbo (fst s)) (snd s1) st1 /\
  (st1 = i :: st ->
   (m_fbo (snd s0 i) <> 0%N -> boundFbo (fst s1) = m_fbo (snd s0 i)) /\
   (m_fbo (snd s0 i) = 0%N -> boundFbo (fst s1) = boundFbo (fst s0)) /\
   (forall s2,
      run_all F isValid [(i, op_release)] s1 = Returns s2 ->
      boundFbo (fst s2) = boundFbo (fst s0))).
Proof.
  intros Ho0 Ho1 H0 H1.
  destruct (identifier_of_innermost F isValid pre st s s0 Ho0 H0)
    as [Hn0 Hf0].
  destruct (run_nested F isValid _ _ st st1 s0 s1 Hn0 Ho1 H1) as [Hn1 Hf1].
  pose proof Hn0 as (_ & Hb0 & _). pose proof Hn1 as (_ & Hb1 & _).
  split; [exact Hb1|].
  intros ->. simpl in Hb1. rewrite Hf1 in Hb1.
  rewrite (innermost_same _ _ (snd s0) st Hf1) in Hb1.
  split; [|split].
  - intros Hnz. apply N.eqb_neq in Hnz. rewrite Hnz in Hb1. exact Hb1.
  - intros Hz. rewrite Hz in Hb1. simpl in Hb1. rewrite Hb1, Hb0. reflexivity.
  - intros s2 H2.
    destruct (run_nested F isValid _ [(i, op_release)] (i :: st) st s1 s2 Hn1)
      as [(_ & Hb2 & _) Hf2]; [|exact H2|].
    + simpl. destruct (decide (i = i)); [reflexivity | contradiction].
    + rewrite Hb2, Hb0. apply innermost_same.
      intros k. rewrite Hf2, Hf1. reflexivity.
Qed.

Lemma bind_release_global_identifier_witness :
  exists s1 s2,
    run_all sample_features sample_isValid
      [(0%nat, op_bind); (1%nat, op_bind); (1%nat, op_draw); (1%nat, op_release)]
      (sample_world, instances_with_targets) = Returns s1 /\
    boundFbo (fst s1) = 1%N /\
    run_all sample_features sample_isValid [(0%nat, op_release)] s1
    = Returns s2 /\
    boundFbo (fst s2) = 0%N.
Proof.
  assert (H : exists s1 s2,
            run_all sample_features sample_isValid
              [(0%nat, op_bind); (1%nat, op_bind); (1%nat, op_draw);
               (1%nat, op_release)]
              (sample_world, instances_with_targets) = Returns s1 /\
            run_all sample_features sample_isValid [(0%nat, op_release)] s1
            = Returns s2)
    by (do 2 eexists; split; vm_compute; reflexivity).
  destruct H as (s1 & s2 & H1 & H2).
  destruct (bind_release_global_identifier sample_features sample_isValid
              [] 0%nat [(1%nat, op_bind); (1%nat, op_draw); (1%nat, op_release)]
              [] [0%nat] (sample_world, instances_with_targets)
              (sample_world, instances_with_targets) s1
              eq_refl eq_refl eq_refl H1) as (_ & Hin).
  destruct (Hin eq_refl) as (Htop & _ & Hrel).
  exists s1, s2. split; [exact H1|].
  split; [apply Htop; discriminate|].
  split; [exact H2|]. apply (Hrel s2 H2).
Defined.

(** C3 as stated fails under nesting. Two instances are constructed
    and resized in a world where nothing is bound; they get the handles
    1 and 2. After [bind] on the first and [bind] on the second, a point
    that lies strictly between the [bind] of the first and its
    [release], the global identifier is 2, not the handle of the first.
    The calls are properly paired: the two [release]s that follow
    return and leave the identifier at 0, as it was. Not so when the
    first instance is resized while the second is bound over it: the
    same two [release]s then leave the identifier at 2. *)
Lemma nested_bind_hides_outer_handle :
  exists wA A wB B s2 s4 s5,
    exec (internalCreate ;;; resize sample_isValid (mkSize 64 64))
         (sample_world, sample_fb) = Returns (wA, A) /\
    exec (internalCreate ;;; resize sample_isValid (mkSize 64 64))
         (wA, sample_fb) = Returns (wB, B) /\
    m_fbo A = 1%N /\ m_fbo B = 2%N /\ boundFbo wB = 0%N /\
    run_all sample_features sample_isValid
      [(0%nat, op_bind); (1%nat, op_bind)]
      (wB, fun i => if Nat.eqb i 0 then A else B) = Returns s2 /\
    boundFbo (fst s2) = 2%N /\
    m_fbo (snd s2 0%nat) = 1%N /\
    boundFbo (fst s2) <> m_fbo (snd s2 0%nat) /\
    run_all sample_features sample_isValid
      [(1%nat, op_release); (0%nat, op_release)] s2 = Returns s4 /\
    boundFbo (fst s4) = 0%N /\
    run_all sample_features sample_isValid
      [(0%nat, op_resize (mkSize 32 32)); (1%nat, op_release);
       (0%nat, op_release)] s2 = Returns s5 /\
    boundFbo (fst s5) = 2%N.
Proof.
  do 7 eexists.
  split; [vm_compute; reflexivity|].
  split; [vm_compute; reflexivity|].
  split; [reflexivity|]. split; [reflexivity|]. split; [reflexivity|].
  split; [vm_compute; reflexivity|].
  split; [reflexivity|]. split; [reflexivity|].
  split; [discriminate|].
  split; [vm_compute; reflexivity|].
  split; [reflexivity|].
  split; [vm_compute; reflexivity|].
  reflexivity.
Qed.
